(** * Dictionary web app: the search / history / favorites controller

    A shallow embedding of the controller logic of [src/App.tsx] and the
    properties of its specification.  The source file holds two variants of
    the component (the first [App] and, after it, a second one); they share
    every handler modelled here except the lookup URL and the start-up
    effect, which take the variant as an argument.

    React state is one record, every [setX] call is a record update, and a
    handler is a function from the state in which it runs to the state it
    leaves.  [searchWord] is an [async] function with a single [await]
    chain, so it is split at the suspension point into the part that runs
    when it is called and the part that runs when the lookup settles. *)

From Stdlib Require Import ZArith Ascii DecimalString.
From stdpp Require Import base list strings gmap sorting.

Local Open Scope Z_scope.
Local Open Scope nat_scope.

(** ** Data model (the TypeScript interfaces) *)

Module Phonetic.
Record t := mk { text : option string; audio : option string }.
End Phonetic.

(** [interface Definition]. *)
Module Defn.
Record t := mk {
  definition : string;
  example : option string;
  synonyms : option (list string);
  antonyms : option (list string) }.
End Defn.

Module Meaning.
Record t := mk {
  partOfSpeech : string;
  definitions : list Defn.t;
  synonyms : option (list string);
  antonyms : option (list string) }.
End Meaning.

Module DictionaryEntry.
Record t := mk {
  word : string;
  phonetic : option string;
  phonetics : list Phonetic.t;
  meanings : list Meaning.t;
  sourceUrls : list string }.
End DictionaryEntry.

Module HistoryItem.
Record t := mk { word : string; timestamp : Z }.
End HistoryItem.

Module FavoriteItem.
Record t := mk { word : string; definition : string; timestamp : Z }.
End FavoriteItem.

#[global] Instance HistoryItem_eq_dec : EqDecision HistoryItem.t.
Proof. solve_decision. Defined.

#[global] Instance FavoriteItem_eq_dec : EqDecision FavoriteItem.t.
Proof. solve_decision. Defined.

Inductive MobileTab := TabMain | TabHistory | TabFavorites.

(** ** The host platform

    The built-ins of the JavaScript host that the handlers call.  They are
    not part of the repository, so the development is parametric in them.
    A [string] stands for a JavaScript string.
    - [encodeURIComponent] answers [None] where the built-in throws
      [URIError] (a lone surrogate in its argument).
    - [JSON_parse_history] and [JSON_parse_favorites] are [JSON.parse] at the
      two types its result is stored at; [None] is a thrown [SyntaxError].
      A text that parses to a value of another shape than the declared type
      is outside the model. *)
Class Host := {
  trim : string → string;
  toLowerCase : string → string;
  encodeURIComponent : string → option string;
  JSON_parse_history : string → option (list HistoryItem.t);
  JSON_parse_favorites : string → option (list FavoriteItem.t) }.

(** What the properties on case-insensitive identity need of the host:
    lower-casing a lower-cased string changes nothing. *)
Class HostLaws (H : Host) : Prop := {
  toLowerCase_idemp : ∀ s, toLowerCase (toLowerCase s) = toLowerCase s }.

(** ** Component state: the [useState] cells *)

Record State := mkState {
  value : string;
  data : option (list DictionaryEntry.t);
  err : option string;
  loading : bool;
  history : list HistoryItem.t;
  favorites : list FavoriteItem.t;
  mobileTab : MobileTab;
  selectedMeaningIndex : nat;
  isDarkMode : bool;
  showSuggestions : bool; (* second variant only *)
  copiedText : option string;
  autoPlayAudio : bool }.

(** The state of a freshly mounted component. *)
Definition initialState : State :=
  mkState EmptyString None None false [] [] TabMain 0 false false None false.

Definition setData (d : option (list DictionaryEntry.t)) (s : State) : State :=
  mkState (value s) d (err s) (loading s) (history s) (favorites s)
    (mobileTab s) (selectedMeaningIndex s) (isDarkMode s) (showSuggestions s)
    (copiedText s) (autoPlayAudio s).

Definition setErr (e : option string) (s : State) : State :=
  mkState (value s) (data s) e (loading s) (history s) (favorites s)
    (mobileTab s) (selectedMeaningIndex s) (isDarkMode s) (showSuggestions s)
    (copiedText s) (autoPlayAudio s).

Definition setLoading (b : bool) (s : State) : State :=
  mkState (value s) (data s) (err s) b (history s) (favorites s)
    (mobileTab s) (selectedMeaningIndex s) (isDarkMode s) (showSuggestions s)
    (copiedText s) (autoPlayAudio s).

(** [setHistory] and [setFavorites] take an updater, as the handlers call
    them with [prev => ...]. *)
Definition setHistory (f : list HistoryItem.t → list HistoryItem.t)
    (s : State) : State :=
  mkState (value s) (data s) (err s) (loading s) (f (history s)) (favorites s)
    (mobileTab s) (selectedMeaningIndex s) (isDarkMode s) (showSuggestions s)
    (copiedText s) (autoPlayAudio s).

Definition setFavorites (f : list FavoriteItem.t → list FavoriteItem.t)
    (s : State) : State :=
  mkState (value s) (data s) (err s) (loading s) (history s) (f (favorites s))
    (mobileTab s) (selectedMeaningIndex s) (isDarkMode s) (showSuggestions s)
    (copiedText s) (autoPlayAudio s).

Definition setMobileTab (t : MobileTab) (s : State) : State :=
  mkState (value s) (data s) (err s) (loading s) (history s) (favorites s)
    t (selectedMeaningIndex s) (isDarkMode s) (showSuggestions s)
    (copiedText s) (autoPlayAudio s).

Definition setSelectedMeaningIndex (i : nat) (s : State) : State :=
  mkState (value s) (data s) (err s) (loading s) (history s) (favorites s)
    (mobileTab s) i (isDarkMode s) (showSuggestions s)
    (copiedText s) (autoPlayAudio s).

Definition setIsDarkMode (b : bool) (s : State) : State :=
  mkState (value s) (data s) (err s) (loading s) (history s) (favorites s)
    (mobileTab s) (selectedMeaningIndex s) b (showSuggestions s)
    (copiedText s) (autoPlayAudio s).

Definition setAutoPlayAudio (b : bool) (s : State) : State :=
  mkState (value s) (data s) (err s) (loading s) (history s) (favorites s)
    (mobileTab s) (selectedMeaningIndex s) (isDarkMode s) (showSuggestions s)
    (copiedText s) b.

(** ** Exceptions and effects *)

Inductive Exn := SyntaxError | TypeError.

Inductive Result (A : Type) := Ok (a : A) | Throw (e : Exn).
Arguments Ok {A} a.
Arguments Throw {A} e.

(** A settled [fetch]: the promise rejects (transport failure) or is
    fulfilled with a response, of which the handler reads [ok] and
    [json()]; [json = None] is a body that [res.json()] rejects. *)
Record Response := mkResponse {
  ok : bool;
  json : option (list DictionaryEntry.t) }.

Inductive Settled := Rejected | Fulfilled (res : Response).

(** What a handler does to the outside world: [Fetch url] is the call
    [fetch(url)], [ConsoleError] the [console.error] of the [catch] block,
    [SetTimeout_playAudio result ms] the timer that is to play the audio of
    [result]. *)
Inductive Effect :=
| Fetch (url : string)
| ConsoleError
| SetTimeout_playAudio (result : list DictionaryEntry.t) (ms : nat).

Inductive Variant := First | Second.

(** A small error monad for code that may throw. *)
Definition bindResult {A B} (r : Result A) (k : A → Result B) : Result B :=
  match r with
  | Ok a => k a
  | Throw e => Throw e
  end.

Notation "'let*' x := r 'in' k" := (bindResult r (λ x, k))
  (at level 10, x name, r at level 100, k at level 200).

(** ** The handlers *)

Section Controller.
Context `{H : Host}.

Definition dquote : string := String (ascii_of_nat 34) EmptyString.

Definition endpoint : string :=
  "https://api.dictionaryapi.dev/api/v2/entries/en/".

(** The argument of [fetch].  The first variant passes the lower-cased word
    through [encodeURIComponent]; the second appends it as it is. *)
Definition lookupUrl (v : Variant) (word : string) : option string :=
  match v with
  | First =>
      match encodeURIComponent (toLowerCase word) with
      | Some p => Some (endpoint +:+ p)
      | None => None
      end
  | Second => Some (endpoint +:+ toLowerCase word)
  end.

(** The template literal of the [catch] block. *)
Definition notFoundMessage (word : string) : string :=
  dquote +:+ word +:+ dquote +:+ " not found in dictionary".

(** The updater passed to [setHistory] after a successful lookup. *)
Definition historyUpdater (word : string) (now : Z)
    (prev : list HistoryItem.t) : list HistoryItem.t :=
  let newHistoryItem := HistoryItem.mk (toLowerCase word) now in
  let filtered :=
    filter (λ item, HistoryItem.word item ≠ toLowerCase word) prev in
  take 50 (newHistoryItem :: filtered).

Definition onCatch (word : string) (st : State) : State :=
  setErr (Some (notFoundMessage word)) (setData None st).

Definition onFinally (st : State) : State := setLoading false st.

(** [searchWord] up to its first suspension: it has returned (the guard, or
    an exception before the request went out), or it has issued
    [fetch url] and waits.  [autoPlay] is the [autoPlayAudio] cell as the
    closure of the call captured it. *)
Inductive Started :=
| Returned (st : State) (fx : list Effect)
| Awaiting (url : string) (autoPlay : bool) (st : State).

Definition searchWord_call (v : Variant) (word : string) (st : State)
    : Started :=
  if bool_decide (trim word = EmptyString) then Returned st []
  else
    let st1 := setMobileTab TabMain (setErr None (setLoading true st)) in
    match lookupUrl v word with
    | Some url => Awaiting url (autoPlayAudio st) st1
    | None => Returned (onFinally (onCatch word st1)) [ConsoleError]
    end.

(** [searchWord] from the moment the lookup settles to its end; [now] is
    what [Date.now()] answers, [st] the state at that moment. *)
Definition searchWord_settle (word : string) (autoPlay : bool) (r : Settled)
    (now : Z) (st : State) : State * list Effect :=
  match r with
  | Fulfilled (mkResponse true (Some result)) =>
      let st1 := setSelectedMeaningIndex 0 (setData (Some result) st) in
      let st2 := setHistory (historyUpdater word now) st1 in
      (onFinally st2,
       if autoPlay then [SetTimeout_playAudio result 300] else [])
  | _ => (onFinally (onCatch word st), [ConsoleError])
  end.

(** A search that runs to its end with nothing else in between: [net] is
    the answer of the service to the request. *)
Definition searchWord (v : Variant) (net : string → Settled) (now : Z)
    (word : string) (st : State) : State * list Effect :=
  match searchWord_call v word st with
  | Returned st' fx => (st', fx)
  | Awaiting url autoPlay st1 =>
      let '(st2, fx) := searchWord_settle word autoPlay (net url) now st1 in
      (st2, Fetch url :: fx)
  end.

(** The requests a run of effects sent to the lookup service. *)
Definition requests (fx : list Effect) : list string :=
  omap (λ e, match e with Fetch url => Some url | _ => None end) fx.

Definition playAudio (entryData : option (list DictionaryEntry.t))
    (st : State) : option string :=
  let dataToUse :=
    match entryData with Some d => Some d | None => data st end in
  match dataToUse with
  | Some (e :: _) =>
      let found :=
        List.find (λ p, match Phonetic.audio p with
                        | Some a => negb (bool_decide (a = EmptyString))
                        | None => false
                        end) (DictionaryEntry.phonetics e) in
      match found with
      | Some p => Phonetic.audio p
      | None => None
      end
  | _ => None
  end.

Definition isFavorite (st : State) : bool :=
  match data st with
  | Some (e :: _) =>
      existsb (λ f, bool_decide (FavoriteItem.word f = DictionaryEntry.word e))
        (favorites st)
  | _ => false
  end.

Definition removeFromFavorites (word : string) (st : State) : State :=
  setFavorites (filter (λ f, FavoriteItem.word f ≠ word)) st.

(** [toggleFavorite]: indexing [meanings[0].definitions[0]] past the end of
    either array reads a property of [undefined], a [TypeError]. *)
Definition toggleFavorite (now : Z) (st : State) : Result State :=
  match data st with
  | Some (e :: _) =>
      if isFavorite st
      then Ok (removeFromFavorites (DictionaryEntry.word e) st)
      else
        match DictionaryEntry.meanings e with
        | m :: _ =>
            match Meaning.definitions m with
            | d :: _ =>
                let newFavorite :=
                  FavoriteItem.mk (DictionaryEntry.word e)
                    (Defn.definition d) now in
                Ok (setFavorites (λ prev, newFavorite :: prev) st)
            | [] => Throw TypeError
            end
        | [] => Throw TypeError
        end
  | _ => Ok st
  end.

(** [Set.prototype.add] on a set kept in insertion order, as [Array.from]
    reads it back. *)
Definition Set_add (x : string) (s : list string) : list string :=
  if bool_decide (x ∈ s) then s else s ++ [x].

Definition addAll (syns : option (list string)) (s : list string)
    : list string :=
  match syns with
  | Some l => foldl (λ acc syn, Set_add syn acc) s l
  | None => s
  end.

Definition getAllSynonyms (st : State) : list string :=
  match data st with
  | Some (e :: _) =>
      foldl (λ synonyms meaning,
               foldl (λ acc def, addAll (Defn.synonyms def) acc)
                 (addAll (Meaning.synonyms meaning) synonyms)
                 (Meaning.definitions meaning))
        [] (DictionaryEntry.meanings e)
  | _ => []
  end.

(** ** Start-up: the mount effect *)

(** [if (saved) ...] on the answer of [localStorage.getItem]: [null] and the
    empty string are falsy. *)
Definition truthy (o : option string) : option string :=
  match o with
  | Some s => if bool_decide (s = EmptyString) then None else Some s
  | None => None
  end.

Definition loadHistory (key : string) (localStorage : gmap string string)
    (st : State) : Result State :=
  match truthy (localStorage !! key) with
  | Some saved =>
      match JSON_parse_history saved with
      | Some h => Ok (setHistory (λ _, h) st)
      | None => Throw SyntaxError
      end
  | None => Ok st
  end.

Definition loadFavorites (key : string) (localStorage : gmap string string)
    (st : State) : Result State :=
  match truthy (localStorage !! key) with
  | Some saved =>
      match JSON_parse_favorites saved with
      | Some f => Ok (setFavorites (λ _, f) st)
      | None => Throw SyntaxError
      end
  | None => Ok st
  end.

(** [prefersDark] is [window.matchMedia("(prefers-color-scheme: dark)")]. *)
Definition bootstrap (v : Variant) (prefersDark : bool)
    (localStorage : gmap string string) (st : State) : Result State :=
  match v with
  | First =>
      let saved := bool_decide (localStorage !! "isDarkMode" = Some "true") in
      let st := setIsDarkMode (saved || prefersDark) st in
      let* st := loadHistory "history" localStorage st in
      loadFavorites "favorites" localStorage st
  | Second =>
      let* st := loadHistory "wordHistory" localStorage st in
      let* st := loadFavorites "wordFavorites" localStorage st in
      let st :=
        match truthy (localStorage !! "darkMode") with
        | Some s => setIsDarkMode (bool_decide (s = "true")) st
        | None => st
        end in
      let st :=
        match truthy (localStorage !! "autoPlayAudio") with
        | Some s => setAutoPlayAudio (bool_decide (s = "true")) st
        | None => st
        end in
      Ok st
  end.

End Controller.

(** ** A host for strings of ASCII text

    The built-ins as they act on ASCII text, to run the handlers on concrete
    inputs.  Characters above 127 pass through [ascii_toLowerCase] and
    [ascii_trim] unchanged and are percent-encoded byte by byte. *)

Definition isWhiteSpace (c : ascii) : bool :=
  let n := nat_of_ascii c in
  (n =? 32) || ((9 <=? n) && (n <=? 13)).

Fixpoint trimStart (s : string) : string :=
  match s with
  | String c s' => if isWhiteSpace c then trimStart s' else s
  | EmptyString => EmptyString
  end.

Definition ascii_trim (s : string) : string :=
  String.rev (trimStart (String.rev (trimStart s))).

Definition lowerChar (c : ascii) : ascii :=
  let n := nat_of_ascii c in
  if (65 <=? n) && (n <=? 90) then ascii_of_nat (n + 32) else c.

Fixpoint ascii_toLowerCase (s : string) : string :=
  match s with
  | String c s' => String (lowerChar c) (ascii_toLowerCase s')
  | EmptyString => EmptyString
  end.

(** The characters [encodeURIComponent] leaves alone: letters, digits and
    [- _ . ! ~ * ' ( )]. *)
Definition unreserved (c : ascii) : bool :=
  let n := nat_of_ascii c in
  ((65 <=? n) && (n <=? 90)) || ((97 <=? n) && (n <=? 122))
  || ((48 <=? n) && (n <=? 57))
  || bool_decide (n ∈ [45; 95; 46; 33; 126; 42; 39; 40; 41]).

Definition hexDigit (n : nat) : ascii :=
  if n <? 10 then ascii_of_nat (48 + n) else ascii_of_nat (55 + n).

Fixpoint percentEncode (s : string) : string :=
  match s with
  | String c s' =>
      if unreserved c then String c (percentEncode s')
      else
        let n := nat_of_ascii c in
        String "%" (String (hexDigit (n / 16))
                      (String (hexDigit (n mod 16)) (percentEncode s')))
  | EmptyString => EmptyString
  end.

Definition ascii_encodeURIComponent (s : string) : option string :=
  Some (percentEncode s).

(** A reader for the texts the component itself stores: an array, without
    white space, of objects whose members are in the order of the
    interface.  Any other text is refused. *)

Fixpoint stripPrefix (p s : string) : option string :=
  match p, s with
  | EmptyString, _ => Some s
  | String a p', String b s' =>
      if bool_decide (a = b) then stripPrefix p' s' else None
  | String _ _, EmptyString => None
  end.

(** The characters of a string literal after its opening quote, up to the
    closing one, with the two-character escapes undone. *)
Fixpoint readStringBody (s : string) : option (string * string) :=
  match s with
  | EmptyString => None
  | String c s' =>
      if bool_decide (nat_of_ascii c = 34) then Some (EmptyString, s')
      else if bool_decide (nat_of_ascii c = 92) then
        match s' with
        | String e s'' =>
            let unescaped :=
              match nat_of_ascii e with
              | 34 => Some (ascii_of_nat 34)
              | 92 => Some (ascii_of_nat 92)
              | 47 => Some (ascii_of_nat 47)
              | 98 => Some (ascii_of_nat 8)
              | 102 => Some (ascii_of_nat 12)
              | 110 => Some (ascii_of_nat 10)
              | 114 => Some (ascii_of_nat 13)
              | 116 => Some (ascii_of_nat 9)
              | _ => None
              end in
            match unescaped, readStringBody s'' with
            | Some u, Some (body, rest) => Some (String u body, rest)
            | _, _ => None
            end
        | EmptyString => None
        end
      else if nat_of_ascii c <? 32 then None
      else
        match readStringBody s' with
        | Some (body, rest) => Some (String c body, rest)
        | None => None
        end
  end.

Definition readString (s : string) : option (string * string) :=
  match stripPrefix dquote s with
  | Some s' => readStringBody s'
  | None => None
  end.

Fixpoint readDigits (acc : N) (s : string) : N * string :=
  match s with
  | String c s' =>
      let n := nat_of_ascii c in
      if (48 <=? n) && (n <=? 57)
      then readDigits (10 * acc + N.of_nat (n - 48))%N s'
      else (acc, s)
  | EmptyString => (acc, s)
  end.

(** A whole number, as [Date.now()] is written. *)
Definition readInteger (s : string) : option (Z * string) :=
  match s with
  | String c _ =>
      let n := nat_of_ascii c in
      if (48 <=? n) && (n <=? 57)
      then let '(v, rest) := readDigits 0%N s in Some (Z.of_N v, rest)
      else None
  | EmptyString => None
  end.

Definition member (key : string) : string := dquote +:+ key +:+ dquote +:+ ":".

Definition readHistoryItem (s : string) : option (HistoryItem.t * string) :=
  s ← stripPrefix ("{" +:+ member "word") s;
  '(w, s) ← readString s;
  s ← stripPrefix ("," +:+ member "timestamp") s;
  '(t, s) ← readInteger s;
  s ← stripPrefix "}" s;
  Some (HistoryItem.mk w t, s).

Definition readFavoriteItem (s : string) : option (FavoriteItem.t * string) :=
  s ← stripPrefix ("{" +:+ member "word") s;
  '(w, s) ← readString s;
  s ← stripPrefix ("," +:+ member "definition") s;
  '(d, s) ← readString s;
  s ← stripPrefix ("," +:+ member "timestamp") s;
  '(t, s) ← readInteger s;
  s ← stripPrefix "}" s;
  Some (FavoriteItem.mk w d t, s).

(** The items after the first, each behind a comma, up to the closing
    bracket and the end of the text; [fuel] bounds the number of items. *)
Fixpoint readMore {A} (item : string → option (A * string)) (fuel : nat)
    (s : string) : option (list A) :=
  match fuel with
  | 0 => None
  | S fuel' =>
      match stripPrefix "]" s with
      | Some rest => if bool_decide (rest = EmptyString) then Some [] else None
      | None =>
          s ← stripPrefix "," s;
          '(x, s) ← item s;
          xs ← readMore item fuel' s;
          Some (x :: xs)
      end
  end.

Definition readArray {A} (item : string → option (A * string)) (s : string)
    : option (list A) :=
  s ← stripPrefix "[" s;
  match stripPrefix "]" s with
  | Some rest => if bool_decide (rest = EmptyString) then Some [] else None
  | None =>
      '(x, s') ← item s;
      xs ← readMore item (String.length s) s';
      Some (x :: xs)
  end.

Definition asciiHost : Host := {|
  trim := ascii_trim;
  toLowerCase := ascii_toLowerCase;
  encodeURIComponent := ascii_encodeURIComponent;
  JSON_parse_history := readArray readHistoryItem;
  JSON_parse_favorites := readArray readFavoriteItem |}.

(** ** Vocabulary of the properties *)

(** [needle] occurs in [hay]. *)
Definition occursIn (needle hay : string) : Prop :=
  ∃ pre post, hay = pre +:+ needle +:+ post.

(** The lookup of [word] goes out and comes back with [result]: the request
    is built, the response has a success status and a body that parses. *)
Definition lookupSucceeds `{H : Host} (v : Variant) (net : string → Settled)
    (word : string) (result : list DictionaryEntry.t) : Prop :=
  ∃ url, lookupUrl v word = Some url
         ∧ net url = Fulfilled (mkResponse true (Some result)).

(** The lookup of [word] fails: the request cannot be built, the transport
    fails, the status is not a success, or the body does not parse. *)
Definition lookupFails `{H : Host} (v : Variant) (net : string → Settled)
    (word : string) : Prop :=
  match lookupUrl v word with
  | Some url =>
      match net url with
      | Fulfilled (mkResponse true (Some _)) => False
      | _ => True
      end
  | None => True
  end.

(** The records of [word] in a history. *)
Definition recordsOf (word : string) (h : list HistoryItem.t)
    : list HistoryItem.t :=
  filter (λ item, HistoryItem.word item = word) h.

(** Services used in the examples. *)
Definition serve (result : list DictionaryEntry.t) : string → Settled :=
  λ _, Fulfilled (mkResponse true (Some result)).

Definition notFound : string → Settled :=
  λ _, Fulfilled (mkResponse false None).

Definition offline : string → Settled := λ _, Rejected.

(** The claim C1 as the specification words it: after a successful search
    the entries are a non-empty list. *)
Definition search_success_as_stated `{H : Host} (v : Variant)
    (net : string → Settled) (now : Z) (word : string) (st : State) : Prop :=
  let st' := (searchWord v net now word st).1 in
  loading st' = false
  ∧ err st' = None
  ∧ (∃ e es, data st' = Some (e :: es))
  ∧ head (history st') = Some (HistoryItem.mk (toLowerCase word) now)
  ∧ length (recordsOf (toLowerCase word) (history st')) = 1.


(** ** History as a function of the searches made

    A successful search is the term typed and the clock reading when the
    lookup came back; [historyAfter] applies the updater of [searchWord]
    for each, oldest first. *)
Definition historyAfter `{H : Host} (searches : list (string * Z))
    (h0 : list HistoryItem.t) : list HistoryItem.t :=
  foldl (λ h s, historyUpdater s.1 s.2 h) h0 searches.

Definition recordFor `{H : Host} (s : string * Z) : HistoryItem.t :=
  HistoryItem.mk (toLowerCase s.1) s.2.

(** The specification's wording of the collection: one record per word,
    the first met kept. *)
Fixpoint distinctWords (l : list HistoryItem.t) : list HistoryItem.t :=
  match l with
  | [] => []
  | a :: l' =>
      a :: filter (λ b, HistoryItem.word b ≠ HistoryItem.word a)
             (distinctWords l')
  end.

(** The specification's wording of History: the searches from the latest
    to the oldest, one record per word, cut at fifty. *)
Definition spec_history `{H : Host} (searches : list (string * Z))
    : list HistoryItem.t :=
  take 50 (distinctWords (reverse (recordFor <$> searches))).

(** Later records are not newer. *)
Definition newestFirst (h : list HistoryItem.t) : Prop :=
  StronglySorted
    (λ a b, (HistoryItem.timestamp b ≤ HistoryItem.timestamp a)%Z) h.

(** ** Favorites: vocabulary *)

(** Two clicks on the star, at clock readings [now1] and [now2]. *)
Definition toggleTwice `{H : Host} (now1 now2 : Z) (st : State)
    : Result State :=
  let* st1 := toggleFavorite now1 st in
  toggleFavorite now2 st1.

(** Favorites with the time stamps left out. *)
Definition withoutTimestamps (fs : list FavoriteItem.t)
    : list (string * string) :=
  (λ f, (FavoriteItem.word f, FavoriteItem.definition f)) <$> fs.

(** The round trip of claim C5 as the specification words it: two toggles
    give back the Favorites, time stamps apart. *)
Definition toggle_roundtrip_as_stated `{H : Host} (now1 now2 : Z)
    (st : State) : Prop :=
  ∃ st2, toggleTwice now1 now2 st = Ok st2
         ∧ withoutTimestamps (favorites st2) = withoutTimestamps (favorites st).

(** ** Synonyms: vocabulary *)

(** The synonym lists of an entry in the order [getAllSynonyms] visits
    them: meaning by meaning, the meaning's own list and then the lists of
    its definitions. *)
Definition traversal (e : DictionaryEntry.t) : list string :=
  m ← DictionaryEntry.meanings e;
  default [] (Meaning.synonyms m)
    ++ (d ← Meaning.definitions m; default [] (Defn.synonyms d)).

(** The specification's wording of the result: every string once, at the
    place where it is first seen. *)
Fixpoint firstSeen (l : list string) : list string :=
  match l with
  | [] => []
  | x :: l' => x :: filter (λ y, y ≠ x) (firstSeen l')
  end.

(** ** Start-up: vocabulary *)

Definition historyKey (v : Variant) : string :=
  match v with First => "history" | Second => "wordHistory" end.

Definition favoritesKey (v : Variant) : string :=
  match v with First => "favorites" | Second => "wordFavorites" end.

(** What start-up is to make of a key: the collection as it is when nothing
    is stored, the stored collection when the text parses, and [None] when
    it does not. *)
Definition fromStore {A} (parse : string → option A) (stored : option string)
    (initial : A) : option A :=
  match truthy stored with
  | Some text => parse text
  | None => Some initial
  end.

(** Claim C2 as the specification words it: start-up never throws, and a
    collection whose stored text is missing or does not parse is empty. *)
Definition bootstrap_as_stated `{H : Host} (v : Variant) (prefersDark : bool)
    (localStorage : gmap string string) : Prop :=
  ∃ st', bootstrap v prefersDark localStorage initialState = Ok st'
    ∧ (fromStore JSON_parse_history (localStorage !! historyKey v) [] = None
       → history st' = [])
    ∧ (fromStore JSON_parse_favorites (localStorage !! favoritesKey v) [] = None
       → favorites st' = []).

(** ** The component as a transition system

    Handlers run one at a time, but a search is two of them: the call, and
    the continuation when the lookup settles.  Several lookups may be in
    flight; each continuation keeps the [word] and [autoPlayAudio] of its
    call. *)
Record Pending := mkPending { p_word : string; p_autoPlay : bool }.

Record System := mkSystem { ui : State; inflight : list Pending }.

Inductive Event :=
| CallSearch (word : string)
| Settle (i : nat) (r : Settled) (now : Z)
| ClickStar (now : Z)
| RemoveFavorite (word : string)
| ClearHistory
| SelectMeaning (i : nat).

(** One event.  [Settle i] resumes the [i]-th lookup in flight, if there is
    one; a handler that throws leaves the state it found. *)
Definition step `{H : Host} (v : Variant) (sys : System) (ev : Event)
    : System :=
  match ev with
  | CallSearch word =>
      match searchWord_call v word (ui sys) with
      | Returned st _ => mkSystem st (inflight sys)
      | Awaiting _ autoPlay st =>
          mkSystem st (inflight sys ++ [mkPending word autoPlay])
      end
  | Settle i r now =>
      match inflight sys !! i with
      | Some p =>
          mkSystem
            (searchWord_settle (p_word p) (p_autoPlay p) r now (ui sys)).1
            (delete i (inflight sys))
      | None => sys
      end
  | ClickStar now =>
      match toggleFavorite now (ui sys) with
      | Ok st => mkSystem st (inflight sys)
      | Throw _ => sys
      end
  | RemoveFavorite word =>
      mkSystem (removeFromFavorites word (ui sys)) (inflight sys)
  | ClearHistory => mkSystem (setHistory (λ _, []) (ui sys)) (inflight sys)
  | SelectMeaning i =>
      mkSystem (setSelectedMeaningIndex i (ui sys)) (inflight sys)
  end.

Definition run `{H : Host} (v : Variant) (sys : System) (evs : list Event)
    : System :=
  foldl (step v) sys evs.

(** Entries and error are not both present. *)
Definition exclusive (st : State) : Prop := data st = None ∨ err st = None.

(** No search is called while a lookup is in flight. *)
Fixpoint oneAtATime `{H : Host} (v : Variant) (sys : System)
    (evs : list Event) : bool :=
  match evs with
  | [] => true
  | ev :: evs' =>
      match ev with
      | CallSearch _ => bool_decide (inflight sys = [])
      | _ => true
      end && oneAtATime v (step v sys ev) evs'
  end.

(** What holds between events when searches do not overlap: the state is
    exclusive, and while a lookup is in flight it is the only one and no
    error is shown. *)
Definition settledOrClean (sys : System) : Prop :=
  exclusive (ui sys)
  ∧ (inflight sys = [] ∨ (∃ p, inflight sys = [p]) ∧ err (ui sys) = None).

(** ** The lookup request: vocabulary *)

(** The path parameter of a request: what follows the endpoint. *)
Definition pathParameter (url : string) : option string :=
  stripPrefix endpoint url.

(** ** Sample data *)

Definition entry_run : DictionaryEntry.t :=
  DictionaryEntry.mk "run" None
    [Phonetic.mk None (Some EmptyString);
     Phonetic.mk (Some "/r/") (Some "https://audio.example/run.mp3")]
    [Meaning.mk "verb"
       [Defn.mk "to move fast" None (Some ["sprint"; "race"]) None;
        Defn.mk "to manage" None None None]
       (Some ["dash"; "sprint"]) None;
     Meaning.mk "noun"
       [Defn.mk "an act of running" None (Some ["dash"; "jog"]) None]
       None None]
    [].

(** An entry the service may send: no meaning at all. *)
Definition entry_bare : DictionaryEntry.t :=
  DictionaryEntry.mk "qi" None [] [] [].

(** An entry whose first meaning has no definition and whose second has. *)
Definition entry_hollow : DictionaryEntry.t :=
  DictionaryEntry.mk "qi" None []
    [Meaning.mk "noun" [] None None;
     Meaning.mk "noun" [Defn.mk "life force" None None None] None None]
    [].

(** A state with two favorites, "run" the older, and the entry of "run"
    loaded. *)
Definition twoFavorites : State :=
  setFavorites
    (λ _, [FavoriteItem.mk "walk" "to go on foot" 20%Z;
           FavoriteItem.mk "run" "to move fast" 10%Z])
    (setData (Some [entry_run]) initialState).

(** Two searches that overlap: the first is still in flight when the second
    is called; the first comes back not found, then the second succeeds. *)
Definition overlappingSearches : list Event :=
  [CallSearch "zzzz"; CallSearch "run";
   Settle 0 (Fulfilled (mkResponse false None)) 1%Z;
   Settle 0 (Fulfilled (mkResponse true (Some [entry_run]))) 2%Z].

(** The same two searches, one after the other. *)
Definition successiveSearches : list Event :=
  [CallSearch "zzzz";
   Settle 0 (Fulfilled (mkResponse false None)) 1%Z;
   CallSearch "run";
   Settle 0 (Fulfilled (mkResponse true (Some [entry_run]))) 2%Z].

(** * The rest of the component

    The handlers and effects of [src/App.tsx] next to the ones above: audio,
    the copy marker, the effects that write the store, the clicks that start
    a search, and what the view reads by index. *)

Definition setValue (v : string) (s : State) : State :=
  mkState v (data s) (err s) (loading s) (history s) (favorites s)
    (mobileTab s) (selectedMeaningIndex s) (isDarkMode s) (showSuggestions s)
    (copiedText s) (autoPlayAudio s).

Definition setCopiedText (t : option string) (s : State) : State :=
  mkState (value s) (data s) (err s) (loading s) (history s) (favorites s)
    (mobileTab s) (selectedMeaningIndex s) (isDarkMode s) (showSuggestions s)
    t (autoPlayAudio s).

(** ** Audio: vocabulary *)

(** A phonetic variant that [playAudio] passes over: no audio, or the empty
    string. *)
Definition silent (p : Phonetic.t) : Prop :=
  Phonetic.audio p = None ∨ Phonetic.audio p = Some EmptyString.

(** ** The copy marker *)

Inductive CopyEffect :=
| ClipboardWrite (text : string)
| SetTimeout_clearCopied (ms : nat).

(** [copyToClipboard]: the text goes to the clipboard, the marker shows it,
    and a timer is set that is to clear the marker. *)
Definition copyToClipboard (text : string) (st : State)
    : State * list CopyEffect :=
  (setCopiedText (Some text) st,
   [ClipboardWrite text; SetTimeout_clearCopied 2000]).

(** The callback of that timer. *)
Definition clearCopied (st : State) : State := setCopiedText None st.

(** Copies and timers over time: the state and the number of timers that
    are set and have not fired.  No timer is ever cancelled. *)
Inductive CopyEvent :=
| Copy (text : string)
| TimerFires.

Definition copyStep (c : State * nat) (ev : CopyEvent) : State * nat :=
  match ev with
  | Copy text => ((copyToClipboard text c.1).1, S c.2)
  | TimerFires =>
      match c.2 with
      | S n => (clearCopied c.1, n)
      | 0 => c
      end
  end.

(** ** The effects that write the store *)

(** [JSON.stringify] at the two types it is called at. *)
Class HostWriter := {
  JSON_stringify_history : list HistoryItem.t → string;
  JSON_stringify_favorites : list FavoriteItem.t → string }.

(** [b.toString()] and [String(b)] on a boolean. *)
Definition booleanToString (b : bool) : string :=
  if b then "true" else "false".

(** The store once the writing effects have run for the state [st]: each
    effect puts the text of its cell under its key.  The first variant has
    none for [autoPlayAudio]. *)
Definition persist `{W : HostWriter} (v : Variant) (st : State)
    (localStorage : gmap string string) : gmap string string :=
  match v with
  | First =>
      <["favorites" := JSON_stringify_favorites (favorites st)]>
        (<["history" := JSON_stringify_history (history st)]>
           (<["isDarkMode" := booleanToString (isDarkMode st)]> localStorage))
  | Second =>
      <["autoPlayAudio" := booleanToString (autoPlayAudio st)]>
        (<["darkMode" := booleanToString (isDarkMode st)]>
           (<["wordFavorites" := JSON_stringify_favorites (favorites st)]>
              (<["wordHistory" := JSON_stringify_history (history st)]>
                 localStorage)))
  end.

(** ** Clicks that start a search *)

(** A click on a record of the History list.  The first variant also shows
    the main panel. *)
Definition clickHistoryItem `{H : Host} (v : Variant) (net : string → Settled)
    (now : Z) (item : HistoryItem.t) (st : State) : State * list Effect :=
  let '(st', fx) :=
    searchWord v net now (HistoryItem.word item)
      (setValue (HistoryItem.word item) st) in
  (match v with First => setMobileTab TabMain st' | Second => st' end, fx).

(** ** What the view reads by index *)

(** The tag of the selected meaning, as the result panel renders it: nothing
    when no entry is loaded, and a [TypeError] when the index is past the
    meanings of the first entry. *)
Definition selectedPartOfSpeech (st : State) : Result (option string) :=
  match data st with
  | Some (e :: _) =>
      match DictionaryEntry.meanings e !! selectedMeaningIndex st with
      | Some m => Ok (Some (Meaning.partOfSpeech m))
      | None => Throw TypeError
      end
  | _ => Ok None
  end.

(** The tabs of the meanings are rendered for the first entry when it has
    more than one meaning; [SelectMeaning i] is a click on the [i]-th. *)
Definition offered (sys : System) (ev : Event) : bool :=
  match ev with
  | SelectMeaning i =>
      match data (ui sys) with
      | Some (e :: _) =>
          bool_decide (1 < length (DictionaryEntry.meanings e))
          && bool_decide (i < length (DictionaryEntry.meanings e))
      | _ => false
      end
  | _ => true
  end.

Fixpoint allOffered `{H : Host} (v : Variant) (sys : System)
    (evs : list Event) : bool :=
  match evs with
  | [] => true
  | ev :: evs' => offered sys ev && allOffered v (step v sys ev) evs'
  end.

(** The selected index is one the view can read. *)
Definition indexInBounds (st : State) : Prop :=
  ∀ e es, data st = Some (e :: es) →
    selectedMeaningIndex st = 0
    ∨ selectedMeaningIndex st < length (DictionaryEntry.meanings e).

(** The collections as the component keeps them. *)
Definition collectionsTidy (st : State) : Prop :=
  NoDup (FavoriteItem.word <$> favorites st)
  ∧ NoDup (HistoryItem.word <$> history st)
  ∧ length (history st) ≤ 50.

(** The loading flag tells whether a lookup is in flight. *)
Definition loadingTracks (sys : System) : Prop :=
  (inflight sys = [] ∧ loading (ui sys) = false)
  ∨ ((∃ p, inflight sys = [p]) ∧ loading (ui sys) = true).

(** The synonyms the view shows. *)
Definition shownSynonyms (st : State) : list string :=
  take 15 (getAllSynonyms st).

(** ** A writer for the ASCII host

    [JSON.stringify] on the two collections, for text without control
    characters other than the five with a short escape. *)

Fixpoint writeStringBody (s : string) : string :=
  match s with
  | EmptyString => EmptyString
  | String c s' =>
      let escape e := String (ascii_of_nat 92) (String (ascii_of_nat e)
                        (writeStringBody s')) in
      match nat_of_ascii c with
      | 34 => escape 34
      | 92 => escape 92
      | 8 => escape 98
      | 12 => escape 102
      | 10 => escape 110
      | 13 => escape 114
      | 9 => escape 116
      | _ => String c (writeStringBody s')
      end
  end.

Definition writeString (s : string) : string :=
  dquote +:+ writeStringBody s +:+ dquote.

Definition writeInteger (z : Z) : string :=
  NilZero.string_of_int (Z.to_int z).

Definition writeHistoryItem (a : HistoryItem.t) : string :=
  "{" +:+ member "word" +:+ writeString (HistoryItem.word a)
      +:+ "," +:+ member "timestamp"
      +:+ writeInteger (HistoryItem.timestamp a) +:+ "}".

Definition writeFavoriteItem (f : FavoriteItem.t) : string :=
  "{" +:+ member "word" +:+ writeString (FavoriteItem.word f)
      +:+ "," +:+ member "definition"
      +:+ writeString (FavoriteItem.definition f)
      +:+ "," +:+ member "timestamp"
      +:+ writeInteger (FavoriteItem.timestamp f) +:+ "}".

Fixpoint writeItems {A} (item : A → string) (l : list A) : string :=
  match l with
  | [] => EmptyString
  | [x] => item x
  | x :: l' => item x +:+ "," +:+ writeItems item l'
  end.

Definition writeArray {A} (item : A → string) (l : list A) : string :=
  "[" +:+ writeItems item l +:+ "]".

Definition asciiWriter : HostWriter := {|
  JSON_stringify_history := writeArray writeHistoryItem;
  JSON_stringify_favorites := writeArray writeFavoriteItem |}.

(** A state in use: two favorites, two searches made, the audio preference
    on. *)
Definition inUse : State :=
  setHistory (λ _, [HistoryItem.mk "run" 3; HistoryItem.mk "walk" 2])
    (setAutoPlayAudio true twoFavorites).

(** A search answered, then the second tab of the meanings clicked. *)
Definition searchThenSelect : list Event :=
  [CallSearch "run";
   Settle 0 (Fulfilled (mkResponse true (Some [entry_run]))) 2%Z;
   SelectMeaning 1].

(** A click on the word of a record of the Favorites list. *)
Definition clickFavoriteItem `{H : Host} (v : Variant)
    (net : string → Settled) (now : Z) (item : FavoriteItem.t) (st : State)
    : State * list Effect :=
  let '(st', fx) :=
    searchWord v net now (FavoriteItem.word item)
      (setValue (FavoriteItem.word item) st) in
  (match v with First => setMobileTab TabMain st' | Second => st' end, fx).

(** ** The main column

    The three panels of the main column and the conditions under which the
    view renders them: [err &&], [!data && !loading && !err] and
    [data && data[0] &&]. *)
Definition showsError (st : State) : bool :=
  bool_decide (is_Some (truthy (err st))).

Definition showsInitial (st : State) : bool :=
  bool_decide (data st = None) && negb (loading st) && negb (showsError st).

Definition showsResult (st : State) : bool :=
  match data st with
  | Some (_ :: _) => true
  | _ => false
  end.

(** ** The search box of the second variant *)

Definition setShowSuggestions (b : bool) (s : State) : State :=
  mkState (value s) (data s) (err s) (loading s) (history s) (favorites s)
    (mobileTab s) (selectedMeaningIndex s) (isDarkMode s) b
    (copiedText s) (autoPlayAudio s).

(** [onChange] of the input: the text typed, and the suggestions flag set
    when the text is not empty. *)
Definition onChange (text : string) (st : State) : State :=
  setShowSuggestions (bool_decide (text ≠ EmptyString)) (setValue text st).

(** [handle], the [onSubmit] of the form (and [handleSearch] of the first
    variant): a search for the text in the box. *)
Definition handle `{H : Host} (v : Variant) (net : string → Settled) (now : Z)
    (st : State) : State * list Effect :=
  searchWord v net now (value st) st.

(** A click on a suggestion. *)
Definition clickSuggestion `{H : Host} (net : string → Settled) (now : Z)
    (word : string) (st : State) : State * list Effect :=
  searchWord Second net now word (setShowSuggestions false (setValue word st)).

(** The dropdown is rendered when [showSuggestions && value.length > 0]. *)
Definition dropdownVisible (st : State) : bool :=
  showSuggestions st && bool_decide (value st ≠ EmptyString).
(** * Properties *)

Section SearchProperties.
Context `{H : Host}.

(** The new record heads the updated history, whatever the history was. *)
Lemma historyUpdater_cons word now prev :
  historyUpdater word now prev =
  HistoryItem.mk (toLowerCase word) now
    :: take 49 (filter (λ item, HistoryItem.word item ≠ toLowerCase word) prev).
Proof. reflexivity. Qed.

Lemma recordsOf_filtered_out w n (h : list HistoryItem.t) :
  recordsOf w (take n (filter (λ item, HistoryItem.word item ≠ w) h)) = [].
Proof.
  unfold recordsOf. revert n.
  induction h as [|a h IH]; intros n.
  - by rewrite filter_nil, take_nil.
  - rewrite filter_cons. destruct (decide (HistoryItem.word a ≠ w)) as [Hne|_].
    + destruct n as [|n]; [done|]. cbn [take].
      rewrite filter_cons_False by (intros ?; by apply Hne). apply IH.
    + apply IH.
Qed.

Lemma recordsOf_historyUpdater word now prev :
  recordsOf (toLowerCase word) (historyUpdater word now prev) =
  [HistoryItem.mk (toLowerCase word) now].
Proof.
  rewrite historyUpdater_cons. unfold recordsOf.
  rewrite filter_cons_True by done.
  f_equal. apply recordsOf_filtered_out.
Qed.

Lemma length_historyUpdater word now prev :
  length (historyUpdater word now prev) ≤ 50.
Proof. unfold historyUpdater. rewrite length_take. lia. Qed.

(** The updater keeps a history without repeated words that way. *)
Lemma historyUpdater_NoDup word now prev :
  NoDup (HistoryItem.word <$> prev) →
  NoDup (HistoryItem.word <$> historyUpdater word now prev).
Proof.
  intros Hnd. rewrite historyUpdater_cons, fmap_cons.
  cbn [HistoryItem.word]. apply NoDup_cons. split.
  - intros (b & Hw & Hb)%list_elem_of_fmap.
    apply subseteq_take, list_elem_of_filter in Hb as [Hne _]. by apply Hne.
  - eapply sublist_NoDup; [exact Hnd|]. apply fmap_sublist.
    etrans; [apply sublist_take|apply sublist_filter].
Qed.

(** What a search leaves when the guard stops it. *)
Lemma searchWord_call_blank v word st :
  trim word = EmptyString → searchWord_call v word st = Returned st [].
Proof. intros Hw. unfold searchWord_call. by rewrite bool_decide_eq_true_2. Qed.

(** C9: a search for a term whose trimmed form is empty is a silent
    no-op: the whole state (search state, History and Favorites) is returned
    as it was, and no effect is produced, so no request goes out. *)
Theorem searchWord_blank_noop v net now word st :
  trim word = EmptyString →
  searchWord v net now word st = (st, [])
  ∧ requests (searchWord v net now word st).2 = [].
Proof.
  intros Hw. unfold searchWord. rewrite searchWord_call_blank by done. done.
Qed.

(** The two ways a search past the guard ends. *)
Lemma searchWord_failure v net now word st :
  trim word ≠ EmptyString → lookupFails v net word →
  (searchWord v net now word st).1 =
  onFinally (onCatch word
    (setMobileTab TabMain (setErr None (setLoading true st)))).
Proof.
  intros Hw Hf. unfold searchWord, searchWord_call, lookupFails in *.
  rewrite bool_decide_eq_false_2 by done.
  destruct (lookupUrl v word) as [url|]; [|done].
  unfold searchWord_settle.
  destruct (net url) as [|[[] [result|]]]; done.
Qed.

Lemma searchWord_success v net now word st result :
  trim word ≠ EmptyString → lookupSucceeds v net word result →
  (searchWord v net now word st).1 =
  onFinally (setHistory (historyUpdater word now)
    (setSelectedMeaningIndex 0 (setData (Some result)
      (setMobileTab TabMain (setErr None (setLoading true st)))))).
Proof.
  intros Hw (url & Hurl & Hnet). unfold searchWord, searchWord_call.
  rewrite bool_decide_eq_false_2 by done.
  rewrite Hurl. unfold searchWord_settle. rewrite Hnet. done.
Qed.

(** Past the guard a lookup either fails or succeeds with some result. *)
Lemma lookup_cases v net word :
  lookupFails v net word ∨ ∃ result, lookupSucceeds v net word result.
Proof.
  unfold lookupFails, lookupSucceeds.
  destruct (lookupUrl v word) as [url|]; [|by left].
  destruct (net url) as [|[[] [result|]]] eqn:Hnet; try by left.
  right. exists result, url. by rewrite Hnet.
Qed.

(** C4: when the lookup fails, the search ends with [loading] false, no
    entries, an error message that contains the term as it was typed, and
    the History (and Favorites) it started from. *)
Theorem searchWord_failure_post v net now word st :
  trim word ≠ EmptyString → lookupFails v net word →
  let st' := (searchWord v net now word st).1 in
  loading st' = false
  ∧ data st' = None
  ∧ err st' = Some (notFoundMessage word)
  ∧ (∃ message, err st' = Some message ∧ occursIn word message)
  ∧ history st' = history st
  ∧ favorites st' = favorites st.
Proof.
  intros Hw Hf st'. subst st'. rewrite searchWord_failure by done.
  repeat split; try done.
  exists (notFoundMessage word). split; [done|].
  by exists dquote, (dquote +:+ " not found in dictionary").
Qed.

(** C1 (amended): when the trimmed term is not empty and the lookup
    succeeds with [result], the search ends with [loading] false, no error,
    the entries equal to [result] (so non-empty exactly when the service
    sent at least one entry), and a History whose front record is the
    lower-cased term and which holds no other record of that word. *)
Theorem searchWord_success_post v net now word st result :
  trim word ≠ EmptyString → lookupSucceeds v net word result →
  let st' := (searchWord v net now word st).1 in
  loading st' = false
  ∧ err st' = None
  ∧ data st' = Some result
  ∧ (result ≠ [] → ∃ e es, data st' = Some (e :: es))
  ∧ head (history st') = Some (HistoryItem.mk (toLowerCase word) now)
  ∧ length (recordsOf (toLowerCase word) (history st')) = 1.
Proof.
  intros Hw Hs st'. subst st'.
  rewrite (searchWord_success _ _ _ _ _ result) by done.
  cbn [onFinally setLoading setHistory loading err data history
       setSelectedMeaningIndex setData setMobileTab setErr].
  repeat split; try done.
  - intros Hne. destruct result as [|e es]; [done|]. by exists e, es.
  - by rewrite recordsOf_historyUpdater.
Qed.

End SearchProperties.

(** ** History *)

Section HistoryProperties.
Context `{H : Host}.

Lemma elem_of_sublist {A} (x : A) (l1 l2 : list A) :
  x ∈ l1 → l1 `sublist_of` l2 → x ∈ l2.
Proof. intros Hx Hsub. by apply (sublist_subseteq _ _ Hsub). Qed.

Lemma filter_none {A} (P : A → Prop) `{∀ x, Decision (P x)} (l : list A) :
  (∀ x, x ∈ l → ¬ P x) → filter P l = [].
Proof.
  induction l as [|a l IH]; intros Hl; [done|].
  rewrite filter_cons_False by (apply Hl; left).
  apply IH. intros x Hx. apply Hl. by right.
Qed.

Lemma filter_all {A} (P : A → Prop) `{∀ x, Decision (P x)} (l : list A) :
  (∀ x, x ∈ l → P x) → filter P l = l.
Proof.
  induction l as [|a l IH]; intros Hl; [done|].
  rewrite filter_cons_True by (apply Hl; left).
  f_equal. apply IH. intros x Hx. apply Hl. by right.
Qed.

Lemma sublist_StronglySorted {A} (R : relation A) (l1 l2 : list A) :
  l1 `sublist_of` l2 → StronglySorted R l2 → StronglySorted R l1.
Proof.
  induction 1 as [|x l1 l2 Hsub IH|x l1 l2 Hsub IH]; intros Hs.
  - constructor.
  - apply StronglySorted_cons in Hs as [Hall Hs].
    apply StronglySorted_cons. split; [|by apply IH].
    eapply Forall_forall. intros y Hy.
    eapply Forall_forall in Hall; [done|]. by eapply elem_of_sublist.
  - apply StronglySorted_cons in Hs as [_ Hs]. by apply IH.
Qed.

Lemma distinctWords_sublist l : distinctWords l `sublist_of` l.
Proof.
  induction l as [|a l IH]; [done|]. cbn [distinctWords].
  apply sublist_skip. etrans; [apply sublist_filter|done].
Qed.

Lemma distinctWords_NoDup l : NoDup (HistoryItem.word <$> distinctWords l).
Proof.
  induction l as [|a l IH]; cbn [distinctWords]; [constructor|].
  rewrite fmap_cons. apply NoDup_cons. split.
  - intros (b & Hw & Hb)%list_elem_of_fmap.
    apply list_elem_of_filter in Hb as [Hne _]. by apply Hne.
  - eapply sublist_NoDup; [exact IH|].
    apply fmap_sublist, sublist_filter.
Qed.

(** On a list without two records of a word, the updater's filter drops at
    most one record, so cutting the list one longer beforehand is not seen. *)
Lemma take_filter_take w n (l : list HistoryItem.t) :
  NoDup (HistoryItem.word <$> l) →
  take n (filter (λ b, HistoryItem.word b ≠ w) (take (S n) l)) =
  take n (filter (λ b, HistoryItem.word b ≠ w) l).
Proof.
  revert n. induction l as [|a l IH]; intros n Hnd; [done|].
  rewrite fmap_cons in Hnd. apply NoDup_cons in Hnd as [Ha Hnd].
  cbn [take]. rewrite !filter_cons.
  destruct (decide (HistoryItem.word a ≠ w)) as [Hne|Heq].
  - destruct n as [|n]; [done|]. cbn [take]. f_equal. by apply IH.
  - apply dec_stable in Heq. subst w.
    assert (Hall : ∀ k : list HistoryItem.t, k `sublist_of` l →
      filter (λ b, HistoryItem.word b ≠ HistoryItem.word a) k = k).
    { intros k Hk. apply filter_all. intros b Hb Heq. apply Ha.
      rewrite <- Heq. apply list_elem_of_fmap_2.
      by eapply elem_of_sublist. }
    rewrite (Hall (take n l)) by apply sublist_take.
    rewrite (Hall l) by done.
    rewrite take_take. f_equal. lia.
Qed.

Lemma historyAfter_snoc searches s h0 :
  historyAfter (searches ++ [s]) h0 =
  historyUpdater s.1 s.2 (historyAfter searches h0).
Proof. unfold historyAfter. by rewrite foldl_snoc. Qed.

(** The History the handler builds is the one the specification words. *)
Lemma historyAfter_spec searches :
  historyAfter searches [] = spec_history searches.
Proof.
  induction searches as [|s searches IH] using rev_ind; [done|].
  rewrite historyAfter_snoc, IH, historyUpdater_cons. unfold spec_history.
  rewrite fmap_app. change (recordFor <$> [s]) with [recordFor s].
  rewrite reverse_snoc. cbn [distinctWords take]. f_equal.
  apply take_filter_take, distinctWords_NoDup.
Qed.

Lemma spec_history_sublist searches :
  spec_history searches `sublist_of` reverse (recordFor <$> searches).
Proof.
  unfold spec_history. etrans; [apply sublist_take|apply distinctWords_sublist].
Qed.

Lemma historyAfter_elem_of searches a :
  a ∈ historyAfter searches [] → ∃ s, s ∈ searches ∧ a = recordFor s.
Proof.
  rewrite historyAfter_spec. intros Ha.
  eapply elem_of_sublist in Ha; [|apply spec_history_sublist].
  apply elem_of_reverse, list_elem_of_fmap in Ha as (s & -> & Hs). eauto.
Qed.

Lemma historyAfter_NoDup searches :
  NoDup (HistoryItem.word <$> historyAfter searches []).
Proof.
  rewrite historyAfter_spec. unfold spec_history.
  rewrite fmap_take. eapply sublist_NoDup; [apply distinctWords_NoDup|].
  apply sublist_take.
Qed.

Lemma recordsOf_NoDup w (h : list HistoryItem.t) :
  NoDup (HistoryItem.word <$> h) → length (recordsOf w h) ≤ 1.
Proof.
  unfold recordsOf. induction h as [|a h IH]; intros Hnd; [cbn; lia|].
  rewrite fmap_cons in Hnd. apply NoDup_cons in Hnd as [Ha Hnd].
  rewrite filter_cons. destruct (decide (HistoryItem.word a = w)) as [<-|_].
  - cbn [length].
    assert (filter (λ item, HistoryItem.word item = HistoryItem.word a) h
            = []) as ->; [|done].
    apply filter_none. intros b Hb Heq. apply Ha. rewrite <- Heq.
    by apply list_elem_of_fmap_2.
  - by apply IH.
Qed.

Lemma historyAfter_newestFirst searches :
  StronglySorted Z.le (searches.*2) → newestFirst (historyAfter searches []).
Proof.
  unfold newestFirst.
  induction searches as [|s searches IH] using rev_ind; intros Hs.
  - constructor.
  - rewrite fmap_app in Hs. apply StronglySorted_app in Hs as (Hle & Hs & _).
    rewrite historyAfter_snoc, historyUpdater_cons.
    set (h := historyAfter searches []) in *.
    assert (Hsub :
      take 49 (filter (λ item, HistoryItem.word item ≠ toLowerCase s.1) h)
        `sublist_of` h).
    { etrans; [apply sublist_take|apply sublist_filter]. }
    apply StronglySorted_cons. split.
    + apply Forall_forall. intros b Hb. cbn [HistoryItem.timestamp].
      eapply elem_of_sublist in Hb; [|exact Hsub].
      apply historyAfter_elem_of in Hb as (s' & Hs' & ->).
      apply (Hle s'.2 s.2); [by apply list_elem_of_fmap_2|cbn; left].
    + eapply sublist_StronglySorted; [exact Hsub|by apply IH].
Qed.

(** C3: after any run of successful searches, History holds at most 50
    records, no two of one word, and at most one for all the spellings of a
    term that differ in case (after "run" then "Run", one record for "run");
    it is the searches from the latest to the oldest, and its time stamps
    do not increase when the clock does not go back; and inserting a word,
    present or not, puts the new record at index 0 and leaves no other
    record of that word. *)
Theorem history_invariant (searches : list (string * Z)) :
  let h := historyAfter searches [] in
  length h ≤ 50
  ∧ NoDup (HistoryItem.word <$> h)
  ∧ (∀ term, length (recordsOf (toLowerCase term) h) ≤ 1)
  ∧ (HostLaws H → ∀ i j a b, h !! i = Some a → h !! j = Some b →
       toLowerCase (HistoryItem.word a) = toLowerCase (HistoryItem.word b) →
       i = j)
  ∧ h = spec_history searches
  ∧ (StronglySorted Z.le (searches.*2) → newestFirst h)
  ∧ (∀ term now prev,
       let h' := historyUpdater term now prev in
       h' !! 0 = Some (HistoryItem.mk (toLowerCase term) now)
       ∧ recordsOf (toLowerCase term) h' =
           [HistoryItem.mk (toLowerCase term) now]
       ∧ length h' ≤ 50
       ∧ (NoDup (HistoryItem.word <$> prev) → NoDup (HistoryItem.word <$> h')))
  ∧ (∀ t1 t2,
       historyAfter (H := asciiHost) [("run", t1); ("Run", t2)] [] =
       [HistoryItem.mk "run" t2]).
Proof.
  intros h. subst h. repeat split.
  - rewrite historyAfter_spec. unfold spec_history. rewrite length_take. lia.
  - apply historyAfter_NoDup.
  - intros term. apply recordsOf_NoDup, historyAfter_NoDup.
  - intros HL i j a b Hi Hj Hab.
    assert (Hfix : ∀ c, c ∈ historyAfter searches [] →
      toLowerCase (HistoryItem.word c) = HistoryItem.word c).
    { intros c (s & _ & ->)%historyAfter_elem_of. apply toLowerCase_idemp. }
    rewrite !Hfix in Hab by (by eapply list_elem_of_lookup_2).
    eapply NoDup_lookup; [apply historyAfter_NoDup| |].
    + rewrite list_lookup_fmap, Hi. done.
    + rewrite list_lookup_fmap, Hj. cbn. by rewrite Hab.
  - apply historyAfter_spec.
  - apply historyAfter_newestFirst.
  - apply recordsOf_historyUpdater.
  - apply length_historyUpdater.
  - apply historyUpdater_NoDup.
Qed.

End HistoryProperties.

(** ** Favorites *)

Section FavoritesProperties.
Context `{H : Host}.

Lemma existsb_word w (fs : list FavoriteItem.t) :
  existsb (λ f, bool_decide (FavoriteItem.word f = w)) fs = true
  ↔ ∃ f, f ∈ fs ∧ FavoriteItem.word f = w.
Proof.
  induction fs as [|a fs IH]; cbn [existsb].
  - split; [done|]. intros (f & Hf & _). by apply elem_of_nil in Hf.
  - rewrite orb_true_iff, IH, bool_decide_eq_true. split.
    + intros [Ha|(f & Hf & Hw)]; [exists a|exists f]; split; try done;
        [left|by right].
    + intros (f & Hf & Hw). apply elem_of_cons in Hf as [->|Hf]; eauto.
Qed.

Lemma isFavorite_iff st e es :
  data st = Some (e :: es) →
  isFavorite st = true
  ↔ ∃ f, f ∈ favorites st ∧ FavoriteItem.word f = DictionaryEntry.word e.
Proof. intros Hd. unfold isFavorite. rewrite Hd. apply existsb_word. Qed.

Lemma removeFromFavorites_clean w st :
  Forall (λ f, FavoriteItem.word f ≠ w) (favorites (removeFromFavorites w st)).
Proof.
  apply Forall_forall. intros f Hf. cbn in Hf.
  by apply list_elem_of_filter in Hf as [Hne _].
Qed.

Lemma isFavorite_removed st e es :
  data st = Some (e :: es) →
  isFavorite (removeFromFavorites (DictionaryEntry.word e) st) = false.
Proof.
  intros Hd. apply not_true_is_false. intros Hfav.
  apply (isFavorite_iff _ e es) in Hfav as (f & Hf & Hw); [|done].
  pose proof (removeFromFavorites_clean (DictionaryEntry.word e) st) as Hall.
  eapply Forall_forall in Hall; [|exact Hf]. done.
Qed.

Lemma isFavorite_added st e es d now :
  data st = Some (e :: es) →
  isFavorite
    (setFavorites (λ prev, FavoriteItem.mk (DictionaryEntry.word e) d now :: prev)
       st) = true.
Proof.
  intros Hd. apply (isFavorite_iff _ e es); [done|].
  eexists. split; [left|done].
Qed.

Lemma filter_not_favorite st e es :
  data st = Some (e :: es) → isFavorite st = false →
  filter (λ f, FavoriteItem.word f ≠ DictionaryEntry.word e) (favorites st)
  = favorites st.
Proof.
  intros Hd Hnf. apply filter_all. intros f Hf Hw.
  apply not_true_iff_false in Hnf. apply Hnf.
  apply (isFavorite_iff _ e es); eauto.
Qed.

(** How [toggleFavorite] ends on a loaded entry. *)
Lemma toggleFavorite_remove now st e es :
  data st = Some (e :: es) → isFavorite st = true →
  toggleFavorite now st = Ok (removeFromFavorites (DictionaryEntry.word e) st).
Proof. intros Hd Hf. unfold toggleFavorite. by rewrite Hd, Hf. Qed.

Lemma toggleFavorite_add now st e es m ms d ds :
  data st = Some (e :: es) → isFavorite st = false →
  DictionaryEntry.meanings e = m :: ms → Meaning.definitions m = d :: ds →
  toggleFavorite now st =
  Ok (setFavorites
        (λ prev, FavoriteItem.mk (DictionaryEntry.word e) (Defn.definition d) now
                   :: prev) st).
Proof.
  intros Hd Hf Hm Hds. unfold toggleFavorite. by rewrite Hd, Hf, Hm, Hds.
Qed.

(** C5 (amended): a toggle that adds makes the word a favorite; removing
    a word leaves no record of it and keeps the others in order, so that the
    word is no favorite; a word is a favorite exactly when a record has the
    same string as its word.  Two toggles on a loaded entry whose first
    meaning has a first definition: if the word was no favorite, Favorites
    is what it was; if it was one, its records are gone and one fresh
    record (the entry's first definition, the new time stamp) is at the
    front, before the others in their order. *)
Theorem favorites_laws now1 now2 st e es :
  data st = Some (e :: es) →
  let w := DictionaryEntry.word e in
  (∀ m ms d ds,
     DictionaryEntry.meanings e = m :: ms → Meaning.definitions m = d :: ds →
     let fresh := FavoriteItem.mk w (Defn.definition d) in
     (isFavorite st = false →
        ∃ st1, toggleFavorite now1 st = Ok st1
               ∧ favorites st1 = fresh now1 :: favorites st
               ∧ isFavorite st1 = true)
     ∧ (isFavorite st = false →
        ∃ st2, toggleTwice now1 now2 st = Ok st2
               ∧ favorites st2 = favorites st)
     ∧ (isFavorite st = true →
        ∃ st2, toggleTwice now1 now2 st = Ok st2
               ∧ favorites st2 =
                 fresh now2
                   :: filter (λ f, FavoriteItem.word f ≠ w) (favorites st)))
  ∧ (∀ word st0,
       favorites (removeFromFavorites word st0) =
         filter (λ f, FavoriteItem.word f ≠ word) (favorites st0)
       ∧ Forall (λ f, FavoriteItem.word f ≠ word)
           (favorites (removeFromFavorites word st0)))
  ∧ isFavorite (removeFromFavorites w st) = false
  ∧ (isFavorite st = true → ∃ st1, toggleFavorite now1 st = Ok st1
                                   ∧ isFavorite st1 = false)
  ∧ (isFavorite st = true ↔ ∃ f, f ∈ favorites st ∧ FavoriteItem.word f = w).
Proof.
  intros Hd w. subst w. split; [|split; [|split; [|split]]].
  - intros m ms d ds Hm Hds fresh. subst fresh. split; [|split].
    + intros Hnf. eexists. split; [by eapply toggleFavorite_add|].
      split; [done|]. by eapply isFavorite_added.
    + intros Hnf. unfold toggleTwice.
      erewrite toggleFavorite_add by done. cbn [bindResult].
      erewrite toggleFavorite_remove; [|done|by eapply isFavorite_added].
      eexists. split; [done|].
      cbn [favorites removeFromFavorites setFavorites].
      rewrite filter_cons_False by (intros Hne; by apply Hne).
      by eapply filter_not_favorite.
    + intros Hf. unfold toggleTwice.
      erewrite toggleFavorite_remove by done. cbn [bindResult].
      erewrite toggleFavorite_add;
        [|done|by eapply isFavorite_removed|done|done].
      eexists. split; done.
  - intros word st0. split; [done|apply removeFromFavorites_clean].
  - by eapply isFavorite_removed.
  - intros Hf. eexists. split; [by eapply toggleFavorite_remove|].
    by eapply isFavorite_removed.
  - by eapply isFavorite_iff.
Qed.

(** C10: when [toggleFavorite] is to add the loaded word, it reads
    [meanings[0].definitions[0]] unguarded: it throws exactly when the entry
    has no meaning or its first meaning has no definition.  So it ends well
    only if some meaning has a non-empty list of definitions, and on an
    entry of which no meaning has one it throws; when it ends well the record
    holds the first definition of the first meaning. *)
Theorem toggleFavorite_unguarded now st e es :
  data st = Some (e :: es) → isFavorite st = false →
  (toggleFavorite now st = Throw TypeError
   ↔ DictionaryEntry.meanings e = []
     ∨ ∃ m ms, DictionaryEntry.meanings e = m :: ms
               ∧ Meaning.definitions m = [])
  ∧ (∀ st', toggleFavorite now st = Ok st' →
       ∃ m ms d ds,
         DictionaryEntry.meanings e = m :: ms
         ∧ Meaning.definitions m = d :: ds
         ∧ favorites st' =
           FavoriteItem.mk (DictionaryEntry.word e) (Defn.definition d) now
             :: favorites st)
  ∧ (∀ st', toggleFavorite now st = Ok st' →
       ∃ m, m ∈ DictionaryEntry.meanings e ∧ Meaning.definitions m ≠ [])
  ∧ ((∀ m, m ∈ DictionaryEntry.meanings e → Meaning.definitions m = []) →
     toggleFavorite now st = Throw TypeError).
Proof.
  intros Hd Hnf. unfold toggleFavorite. rewrite Hd, Hnf.
  destruct (DictionaryEntry.meanings e) as [|m ms] eqn:Hm.
  { split; [|split; [|split]]; try done. split; [by left|done]. }
  destruct (Meaning.definitions m) as [|d ds] eqn:Hds.
  { split; [|split; [|split]]; try done.
    split; [|done]. intros _. right. by exists m, ms. }
  split; [|split; [|split]].
  - split; [done|].
    intros [?|(m' & ms' & [= <- <-] & Hnil)]; congruence.
  - intros st' [= <-]. by exists m, ms, d, ds.
  - intros st' _. exists m. split; [left|congruence].
  - intros Hall. specialize (Hall m (list_elem_of_here _ _)). congruence.
Qed.

End FavoritesProperties.

(** ** Synonyms *)

Section SynonymProperties.
Context `{H : Host}.

Lemma firstSeen_elem_of x l : x ∈ firstSeen l ↔ x ∈ l.
Proof.
  induction l as [|a l IH]; [done|]. cbn [firstSeen].
  rewrite !elem_of_cons, list_elem_of_filter, IH. split.
  - intros [->|[_ Hx]]; [by left|by right].
  - intros [->|Hx]; [by left|].
    destruct (decide (x = a)) as [->|Hne]; [by left|by right].
Qed.

Lemma firstSeen_NoDup l : NoDup (firstSeen l).
Proof.
  induction l as [|a l IH]; cbn [firstSeen]; [constructor|].
  apply NoDup_cons. split; [|by apply NoDup_filter].
  by intros [Hne _]%list_elem_of_filter.
Qed.

(** What is first seen in a prefix stays in front. *)
Lemma firstSeen_prefix l1 l2 : firstSeen l1 `prefix_of` firstSeen (l1 ++ l2).
Proof.
  induction l1 as [|a l1 [k Hk]]; [apply prefix_nil|].
  cbn [app firstSeen]. rewrite Hk, filter_app. apply prefix_cons.
  by eexists.
Qed.

(** Adding to the set is seeing one more string. *)
Lemma Set_add_firstSeen x l : Set_add x (firstSeen l) = firstSeen (l ++ [x]).
Proof.
  unfold Set_add. induction l as [|a l IH].
  - by rewrite bool_decide_eq_false_2 by apply not_elem_of_nil.
  - cbn [app firstSeen]. rewrite <- IH.
    destruct (decide (x = a)) as [->|Hne].
    + rewrite bool_decide_eq_true_2 by left.
      case_bool_decide; [done|].
      rewrite filter_app, filter_cons_False by (intros Hn; by apply Hn).
      by rewrite filter_nil, app_nil_r.
    + destruct (decide (x ∈ firstSeen l)) as [Hin|Hnin].
      * rewrite (bool_decide_eq_true_2 (x ∈ firstSeen l)) by done.
        rewrite bool_decide_eq_true_2; [done|].
        right. by apply list_elem_of_filter.
      * rewrite (bool_decide_eq_false_2 (x ∈ firstSeen l)) by done.
        rewrite bool_decide_eq_false_2.
        -- by rewrite filter_app, filter_cons_True, filter_nil.
        -- intros [?|[_ ?]%list_elem_of_filter]%elem_of_cons; done.
Qed.

Lemma foldl_Set_add pre l :
  foldl (λ acc syn, Set_add syn acc) (firstSeen pre) l = firstSeen (pre ++ l).
Proof.
  revert pre. induction l as [|x l IH]; intros pre.
  - by rewrite app_nil_r.
  - cbn [foldl]. rewrite Set_add_firstSeen, IH, <- app_assoc. done.
Qed.

Lemma addAll_firstSeen syns pre :
  addAll syns (firstSeen pre) = firstSeen (pre ++ default [] syns).
Proof.
  destruct syns as [l|]; cbn [addAll default].
  - apply foldl_Set_add.
  - by rewrite app_nil_r.
Qed.

Lemma foldl_definitions pre (defs : list Defn.t) :
  foldl (λ acc def, addAll (Defn.synonyms def) acc) (firstSeen pre) defs =
  firstSeen (pre ++ (d ← defs; default [] (Defn.synonyms d))).
Proof.
  revert pre. induction defs as [|d defs IH]; intros pre.
  - by rewrite app_nil_r.
  - cbn [foldl]. rewrite addAll_firstSeen, IH, bind_cons, <- app_assoc. done.
Qed.

Lemma foldl_meanings pre (ms : list Meaning.t) :
  foldl (λ synonyms meaning,
           foldl (λ acc def, addAll (Defn.synonyms def) acc)
             (addAll (Meaning.synonyms meaning) synonyms)
             (Meaning.definitions meaning))
    (firstSeen pre) ms =
  firstSeen
    (pre ++ (m ← ms;
             default [] (Meaning.synonyms m)
               ++ (d ← Meaning.definitions m; default [] (Defn.synonyms d)))).
Proof.
  revert pre. induction ms as [|m ms IH]; intros pre.
  - by rewrite app_nil_r.
  - cbn [foldl]. rewrite addAll_firstSeen, foldl_definitions, IH, bind_cons.
    by rewrite <- !app_assoc.
Qed.

Lemma getAllSynonyms_loaded st e es :
  data st = Some (e :: es) → getAllSynonyms st = firstSeen (traversal e).
Proof.
  intros Hd. unfold getAllSynonyms, traversal. rewrite Hd.
  apply (foldl_meanings []).
Qed.

(** C7: for the first loaded entry [getAllSynonyms] returns the strings
    of every meaning's own synonym list and of every definition's, each once
    under equality of strings, in the order in which the traversal (meaning
    by meaning, own list then definitions) first meets them; with no entry
    loaded it returns the empty list. *)
Theorem getAllSynonyms_spec st :
  (∀ e es, data st = Some (e :: es) →
     getAllSynonyms st = firstSeen (traversal e)
     ∧ (∀ x, x ∈ getAllSynonyms st ↔ x ∈ traversal e)
     ∧ (∀ seen rest, traversal e = seen ++ rest →
          firstSeen seen `prefix_of` getAllSynonyms st))
  ∧ NoDup (getAllSynonyms st)
  ∧ (data st = None ∨ data st = Some [] → getAllSynonyms st = []).
Proof.
  split; [|split].
  - intros e es Hd. rewrite (getAllSynonyms_loaded _ e es) by done.
    split; [done|]. split.
    + intros x. apply firstSeen_elem_of.
    + intros seen rest ->. apply firstSeen_prefix.
  - destruct (data st) as [[|e es]|] eqn:Hd.
    + unfold getAllSynonyms. rewrite Hd. constructor.
    + rewrite (getAllSynonyms_loaded _ e es) by done. apply firstSeen_NoDup.
    + unfold getAllSynonyms. rewrite Hd. constructor.
  - unfold getAllSynonyms. by intros [->| ->].
Qed.

End SynonymProperties.

(** ** Start-up *)

Section BootstrapProperties.
Context `{H : Host}.

Lemma loadHistory_fromStore key localStorage st :
  loadHistory key localStorage st =
  match fromStore JSON_parse_history (localStorage !! key) (history st) with
  | Some h => Ok (setHistory (λ _, h) st)
  | None => Throw SyntaxError
  end.
Proof.
  unfold loadHistory, fromStore. destruct (truthy (localStorage !! key)).
  - done.
  - by destruct st.
Qed.

Lemma loadFavorites_fromStore key localStorage st :
  loadFavorites key localStorage st =
  match fromStore JSON_parse_favorites (localStorage !! key) (favorites st) with
  | Some f => Ok (setFavorites (λ _, f) st)
  | None => Throw SyntaxError
  end.
Proof.
  unfold loadFavorites, fromStore. destruct (truthy (localStorage !! key)).
  - done.
  - by destruct st.
Qed.

(** C2 (amended): start-up reads History and Favorites under the fixed
    keys of the variant.  When every stored text parses, or is missing (or
    empty), it ends well: a missing collection stays as it was (empty on a
    fresh component) and a stored one is what the text parses to.  When a
    stored text does not parse, [JSON.parse] throws [SyntaxError] and the
    effect does not end. *)
Theorem bootstrap_post v prefersDark (localStorage : gmap string string) st :
  match fromStore JSON_parse_history (localStorage !! historyKey v)
          (history st),
        fromStore JSON_parse_favorites (localStorage !! favoritesKey v)
          (favorites st) with
  | Some h, Some f =>
      ∃ st', bootstrap v prefersDark localStorage st = Ok st'
             ∧ history st' = h ∧ favorites st' = f
  | _, _ => bootstrap v prefersDark localStorage st = Throw SyntaxError
  end.
Proof.
  destruct v; unfold bootstrap, historyKey, favoritesKey;
    rewrite loadHistory_fromStore; cbn [history favorites setIsDarkMode];
    destruct (fromStore JSON_parse_history _ _) as [h|]; cbn [bindResult];
    try done;
    rewrite loadFavorites_fromStore;
    cbn [history favorites setHistory setIsDarkMode];
    destruct (fromStore JSON_parse_favorites _ _) as [f|];
    cbn [bindResult]; try done.
  - by eexists.
  - eexists. split; [done|].
    destruct (truthy (localStorage !! "darkMode"));
      destruct (truthy (localStorage !! "autoPlayAudio")); done.
Qed.

End BootstrapProperties.

(** ** The search state across events *)

Section SystemProperties.
Context `{H : Host}.

Lemma toggleFavorite_frame now st st' :
  toggleFavorite now st = Ok st' →
  data st' = data st ∧ err st' = err st ∧ loading st' = loading st
  ∧ history st' = history st.
Proof.
  unfold toggleFavorite. intros Ht.
  repeat case_match; by simplify_eq.
Qed.

Lemma searchWord_settle_loading word autoPlay r now st :
  loading (searchWord_settle word autoPlay r now st).1 = false.
Proof.
  unfold searchWord_settle. by destruct r as [|[[] [result|]]].
Qed.

Lemma step_settledOrClean v sys ev :
  settledOrClean sys →
  (∀ word, ev = CallSearch word → inflight sys = []) →
  settledOrClean (step v sys ev).
Proof.
  intros [Hex Hfl] Hidle. destruct ev as [word|i r now|now|word| |i];
    cbn [step].
  - rewrite (Hidle word eq_refl). unfold searchWord_call.
    case_bool_decide.
    + split; [done|by left].
    + destruct (lookupUrl v word) as [url|].
      * split; [by right|]. right. split; [by eexists|done].
      * split; [by left|by left].
  - destruct (inflight sys !! i) as [p|] eqn:Hp; [|done].
    destruct Hfl as [Hnil|[[p' Hone] Herr]]; [by rewrite Hnil in Hp|].
    rewrite Hone in Hp |- *. destruct i as [|i]; [|done].
    split; [|by left]. unfold searchWord_settle, exclusive.
    destruct r as [|[[] [result|]]]; cbn; auto.
  - destruct (toggleFavorite now (ui sys)) as [st|] eqn:Ht; [|done].
    apply toggleFavorite_frame in Ht as (Hd & He & _).
    unfold settledOrClean, exclusive in *. cbn [ui inflight].
    by rewrite Hd, He.
  - done.
  - done.
  - done.
Qed.

(** C6 (amended): as long as no search is called while a lookup is in
    flight, entries and error are never both present, after any run of
    events; and every search that passes the guard ends by setting
    [loading] to false: when the lookup settles, with a success, an error
    status, a body that does not parse or a transport failure, and when the
    request cannot be built. *)
Theorem search_state_invariant v :
  (∀ sys evs,
     inflight sys = [] → exclusive (ui sys) → oneAtATime v sys evs = true →
     exclusive (ui (run v sys evs)))
  ∧ (∀ word autoPlay r now st,
       loading (searchWord_settle word autoPlay r now st).1 = false)
  ∧ (∀ word st st' fx,
       trim word ≠ EmptyString → searchWord_call v word st = Returned st' fx →
       loading st' = false)
  ∧ (∀ net now word st,
       trim word ≠ EmptyString →
       loading (searchWord v net now word st).1 = false).
Proof.
  split; [|split; [|split]].
  - intros sys evs Hnil Hex Hserial.
    assert (Hinv : settledOrClean sys) by (split; [done|by left]).
    clear Hnil Hex. revert sys Hserial Hinv.
    induction evs as [|ev evs IH]; intros sys Hserial Hinv; [apply Hinv|].
    cbn [oneAtATime] in Hserial. apply andb_true_iff in Hserial as [Hev Hserial].
    apply (IH (step v sys ev)); [done|].
    apply step_settledOrClean; [done|].
    intros word ->. by apply bool_decide_eq_true in Hev.
  - apply searchWord_settle_loading.
  - intros word st st' fx Hw. unfold searchWord_call.
    rewrite bool_decide_eq_false_2 by done.
    destruct (lookupUrl v word); [done|]. by intros [= <- _].
  - intros net now word st Hw. unfold searchWord, searchWord_call.
    rewrite bool_decide_eq_false_2 by done.
    destruct (lookupUrl v word) as [url|]; [|done].
    pose proof (searchWord_settle_loading word (autoPlayAudio st) (net url) now
      (setMobileTab TabMain (setErr None (setLoading true st)))) as Hl.
    by destruct (searchWord_settle _ _ _ _ _).
Qed.

(** The request of the first variant: at most one, and its path parameter
    is the lower-cased term percent-encoded. *)
Lemma requests_First net now word st :
  requests (searchWord First net now word st).2 =
  if bool_decide (trim word = EmptyString) then []
  else match encodeURIComponent (toLowerCase word) with
       | Some p => [endpoint +:+ p]
       | None => []
       end.
Proof.
  unfold searchWord, searchWord_call, lookupUrl. case_bool_decide; [done|].
  destruct (encodeURIComponent (toLowerCase word)) as [p|]; [|done].
  unfold searchWord_settle.
  destruct (net _) as [|[[] [result|]]]; try done.
  by destruct (autoPlayAudio st).
Qed.

(** The request of the second variant carries the lower-cased term as it
    is. *)
Lemma requests_Second net now word st :
  requests (searchWord Second net now word st).2 =
  if bool_decide (trim word = EmptyString) then []
  else [endpoint +:+ toLowerCase word].
Proof.
  unfold searchWord, searchWord_call, lookupUrl. case_bool_decide; [done|].
  unfold searchWord_settle.
  destruct (net _) as [|[[] [result|]]]; try done.
  by destruct (autoPlayAudio st).
Qed.

End SystemProperties.

(** * The properties on concrete runs, with the ASCII host *)

Lemma lowerChar_idemp c : lowerChar (lowerChar c) = lowerChar c.
Proof. by destruct c as [[] [] [] [] [] [] [] []]. Qed.

Lemma asciiHost_laws : HostLaws asciiHost.
Proof.
  constructor. intros s. cbn [toLowerCase asciiHost].
  induction s as [|c s IH]; [done|]. cbn [ascii_toLowerCase].
  by rewrite lowerChar_idemp, IH.
Qed.

Section ConcreteRuns.
#[local] Existing Instance asciiHost.

Lemma searchWord_blank_noop_witness :
  trim "  " = EmptyString
  ∧ searchWord Second offline 0 "  " twoFavorites = (twoFavorites, [])
  ∧ requests (searchWord Second offline 0 "  " twoFavorites).2 = [].
Proof.
  split; [reflexivity|].
  apply (searchWord_blank_noop Second offline 0%Z "  " twoFavorites).
  reflexivity.
Defined.

Lemma searchWord_failure_post_witness :
  trim "Zzzz" ≠ EmptyString
  ∧ lookupFails First notFound "Zzzz"
  ∧ loading (searchWord First notFound 7 "Zzzz" twoFavorites).1 = false
  ∧ data (searchWord First notFound 7 "Zzzz" twoFavorites).1 = None
  ∧ err (searchWord First notFound 7 "Zzzz" twoFavorites).1 =
      Some (notFoundMessage "Zzzz")
  ∧ history (searchWord First notFound 7 "Zzzz" twoFavorites).1 = [].
Proof.
  assert (Hw : trim "Zzzz" ≠ EmptyString) by (vm_compute; discriminate).
  assert (Hf : lookupFails First notFound "Zzzz") by (vm_compute; exact I).
  split; [exact Hw|]. split; [exact Hf|].
  destruct (searchWord_failure_post First notFound 7%Z "Zzzz" twoFavorites Hw Hf)
    as (Hl & Hd & He & _ & Hh & _).
  repeat split; assumption.
Defined.

(** C1, counterexample: the service answers with a success status and an
    empty list; the search ends with entries present and empty. *)
Lemma search_success_empty_result :
  trim "hello" ≠ EmptyString
  ∧ lookupSucceeds First (serve []) "hello" []
  ∧ data (searchWord First (serve []) 0 "hello" initialState).1 = Some []
  ∧ ¬ search_success_as_stated First (serve []) 0 "hello" initialState.
Proof.
  split; [vm_compute; discriminate|].
  split; [eexists; split; reflexivity|].
  split; [reflexivity|].
  intros (_ & _ & (e & es & Hd) & _). vm_compute in Hd. discriminate.
Qed.

Lemma searchWord_success_post_witness :
  trim " Run" ≠ EmptyString
  ∧ lookupSucceeds First (serve [entry_run]) " Run" [entry_run]
  ∧ loading (searchWord First (serve [entry_run]) 7 " Run" twoFavorites).1
    = false
  ∧ err (searchWord First (serve [entry_run]) 7 " Run" twoFavorites).1 = None
  ∧ data (searchWord First (serve [entry_run]) 7 " Run" twoFavorites).1
    = Some [entry_run]
  ∧ head (history (searchWord First (serve [entry_run]) 7 " Run" twoFavorites).1)
    = Some (HistoryItem.mk " run" 7).
Proof.
  assert (Hw : trim " Run" ≠ EmptyString) by (vm_compute; discriminate).
  assert (Hs : lookupSucceeds First (serve [entry_run]) " Run" [entry_run])
    by (eexists; split; reflexivity).
  split; [exact Hw|]. split; [exact Hs|].
  destruct (searchWord_success_post First (serve [entry_run]) 7%Z " Run"
              twoFavorites [entry_run] Hw Hs) as (Hl & He & Hd & _ & Hh & _).
  repeat split; assumption.
Defined.

Lemma history_invariant_witness :
  StronglySorted Z.le [1; 2; 3]%Z
  ∧ HostLaws asciiHost
  ∧ NoDup ["run"; "walk"]
  ∧ historyAfter [("Run", 1%Z); ("walk", 2%Z); ("RUN", 3%Z)] [] =
      [HistoryItem.mk "run" 3; HistoryItem.mk "walk" 2]
  ∧ newestFirst (historyAfter [("Run", 1%Z); ("walk", 2%Z); ("RUN", 3%Z)] [])
  ∧ length (recordsOf (toLowerCase "rUn")
      (historyAfter [("Run", 1%Z); ("walk", 2%Z); ("RUN", 3%Z)] [])) ≤ 1
  ∧ (∀ i j a b,
       historyAfter [("Run", 1%Z); ("walk", 2%Z); ("RUN", 3%Z)] [] !! i
         = Some a →
       historyAfter [("Run", 1%Z); ("walk", 2%Z); ("RUN", 3%Z)] [] !! j
         = Some b →
       toLowerCase (HistoryItem.word a) = toLowerCase (HistoryItem.word b) →
       i = j)
  ∧ NoDup (HistoryItem.word <$>
      historyUpdater "WALK" 9
        [HistoryItem.mk "run" 3; HistoryItem.mk "walk" 2]).
Proof.
  assert (Hs : StronglySorted Z.le [1; 2; 3]%Z).
  { repeat constructor; discriminate. }
  assert (Hnd : NoDup ["run"; "walk"]).
  { apply (bool_decide_unpack _). reflexivity. }
  split; [exact Hs|]. split; [exact asciiHost_laws|]. split; [exact Hnd|].
  destruct (history_invariant [("Run", 1%Z); ("walk", 2%Z); ("RUN", 3%Z)])
    as (_ & _ & Hone & Hci & Hspec & Hnew & Hins & _).
  split; [rewrite Hspec; reflexivity|].
  split; [exact (Hnew Hs)|]. split; [exact (Hone "rUn")|].
  split; [exact (Hci asciiHost_laws)|].
  destruct (Hins "WALK" 9%Z [HistoryItem.mk "run" 3; HistoryItem.mk "walk" 2])
    as (_ & _ & _ & Hkeep).
  exact (Hkeep Hnd).
Defined.

(** The cap at work: sixty different words, searched one after the other. *)
Example history_cap :
  let words := (λ n, (String (ascii_of_nat (33 + n)) EmptyString, Z.of_nat n))
                 <$> (seq 0 30 ++ seq 60 30) in
  NoDup (toLowerCase <$> words.*1)
  ∧ length words = 60
  ∧ length (historyAfter words []) = 50
  ∧ head (historyAfter words []) = Some (HistoryItem.mk "z" 89).
Proof.
  intros words. split; [|by vm_compute].
  apply (bool_decide_unpack _). by vm_compute.
Qed.

(** C5, counterexample: "run" is a favorite, behind "walk"; two toggles
    bring it back in front of "walk". *)
Lemma toggle_roundtrip_reorders :
  data twoFavorites = Some [entry_run]
  ∧ (∃ st2, toggleTwice 30 40 twoFavorites = Ok st2
            ∧ withoutTimestamps (favorites st2) =
              [("run", "to move fast"); ("walk", "to go on foot")])
  ∧ withoutTimestamps (favorites twoFavorites) =
      [("walk", "to go on foot"); ("run", "to move fast")]
  ∧ ¬ toggle_roundtrip_as_stated 30 40 twoFavorites.
Proof.
  split; [reflexivity|]. split; [by eexists|]. split; [reflexivity|].
  intros (st2 & Ht & Heq). vm_compute in Ht. injection Ht as <-.
  vm_compute in Heq. discriminate.
Qed.

Lemma favorites_laws_witness :
  data twoFavorites = Some [entry_run]
  ∧ isFavorite twoFavorites = true
  ∧ (∃ st2, toggleTwice 30 40 twoFavorites = Ok st2
       ∧ favorites st2 =
         [FavoriteItem.mk "run" "to move fast" 40;
          FavoriteItem.mk "walk" "to go on foot" 20])
  ∧ isFavorite (removeFromFavorites "run" twoFavorites) = false.
Proof.
  assert (Hd : data twoFavorites = Some [entry_run]) by reflexivity.
  assert (Hf : isFavorite twoFavorites = true) by reflexivity.
  split; [exact Hd|]. split; [exact Hf|].
  destruct (favorites_laws 30%Z 40%Z twoFavorites entry_run [] Hd)
    as (Hadd & _ & Hrem & _).
  destruct (Hadd _ _ _ _ eq_refl eq_refl) as (_ & _ & Htwice).
  split; [exact (Htwice Hf)|exact Hrem].
Defined.

(** Word identity is exact: a favorite "Run" does not make "run" one. *)
Example isFavorite_case_sensitive :
  isFavorite
    (setFavorites (λ _, [FavoriteItem.mk "Run" "to move fast" 10%Z])
       (setData (Some [entry_run]) initialState)) = false.
Proof. reflexivity. Qed.

Lemma toggleFavorite_unguarded_witness :
  data (searchWord First (serve [entry_hollow]) 5 "qi" initialState).1
    = Some [entry_hollow]
  ∧ isFavorite (searchWord First (serve [entry_hollow]) 5 "qi" initialState).1
    = false
  ∧ toggleFavorite 6
      (searchWord First (serve [entry_hollow]) 5 "qi" initialState).1
    = Throw TypeError.
Proof.
  assert (Hd : data (searchWord First (serve [entry_hollow]) 5 "qi"
                       initialState).1 = Some [entry_hollow]) by reflexivity.
  assert (Hf : isFavorite (searchWord First (serve [entry_hollow]) 5 "qi"
                             initialState).1 = false) by reflexivity.
  split; [exact Hd|]. split; [exact Hf|].
  destruct (toggleFavorite_unguarded 6%Z _ entry_hollow [] Hd Hf)
    as (Hthrow & _).
  apply Hthrow. right. by eexists _, _.
Defined.

(** The entry without any meaning makes it throw as well. *)
Example toggleFavorite_bare :
  toggleFavorite 6 (searchWord Second (serve [entry_bare]) 5 "qi" initialState).1
  = Throw TypeError.
Proof. reflexivity. Qed.

Lemma getAllSynonyms_spec_witness :
  data twoFavorites = Some [entry_run]
  ∧ traversal entry_run = ["dash"; "sprint"; "sprint"; "race"; "dash"; "jog"]
  ∧ getAllSynonyms twoFavorites = ["dash"; "sprint"; "race"; "jog"]
  ∧ getAllSynonyms initialState = [].
Proof.
  split; [reflexivity|]. split; [reflexivity|].
  destruct (getAllSynonyms_spec twoFavorites) as (Hloaded & _).
  destruct (Hloaded entry_run [] eq_refl) as (Heq & _).
  split; [rewrite Heq; reflexivity|].
  destruct (getAllSynonyms_spec initialState) as (_ & _ & Hnone).
  apply Hnone. by left.
Defined.

(** C2, counterexample: a History text that does not parse; start-up
    throws, in both variants. *)
Lemma bootstrap_throws_on_malformed :
  JSON_parse_history "{oops" = None
  ∧ bootstrap First false {["history" := "{oops"]} initialState
    = Throw SyntaxError
  ∧ bootstrap Second false {["wordHistory" := "{oops"]} initialState
    = Throw SyntaxError
  ∧ ¬ bootstrap_as_stated First false {["history" := "{oops"]}
  ∧ ¬ bootstrap_as_stated Second false {["wordHistory" := "{oops"]}.
Proof.
  split; [reflexivity|]. split; [by vm_compute|]. split; [by vm_compute|].
  split; intros (st' & Hb & _); vm_compute in Hb; discriminate.
Qed.

(** Start-up on a store the component wrote itself. *)
Example bootstrap_reload :
  let text :=
    "[{" +:+ member "word" +:+ dquote +:+ "run" +:+ dquote +:+ ","
         +:+ member "timestamp" +:+ "3},{"
         +:+ member "word" +:+ dquote +:+ "walk" +:+ dquote +:+ ","
         +:+ member "timestamp" +:+ "2}]" in
  ∃ st', bootstrap First true {["history" := text]} initialState = Ok st'
         ∧ history st' = [HistoryItem.mk "run" 3; HistoryItem.mk "walk" 2]
         ∧ favorites st' = []
         ∧ isDarkMode st' = true.
Proof.
  intros text. eexists. split; [by vm_compute|]. by repeat split.
Qed.

(** C6, counterexample: two searches overlap; the first fails after the
    second has cleared the error, the second then succeeds, and the state
    shows the entries of the one and the error of the other. *)
Lemma overlapping_searches_not_exclusive :
  data (ui (run First (mkSystem initialState []) overlappingSearches))
    = Some [entry_run]
  ∧ err (ui (run First (mkSystem initialState []) overlappingSearches))
    = Some (notFoundMessage "zzzz")
  ∧ ¬ exclusive (ui (run First (mkSystem initialState []) overlappingSearches)).
Proof.
  split; [reflexivity|]. split; [reflexivity|].
  intros [Hd|He]; vm_compute in *; discriminate.
Qed.

Lemma search_state_invariant_witness :
  inflight (mkSystem initialState []) = []
  ∧ exclusive initialState
  ∧ oneAtATime First (mkSystem initialState []) successiveSearches = true
  ∧ exclusive (ui (run First (mkSystem initialState []) successiveSearches))
  ∧ data (ui (run First (mkSystem initialState []) successiveSearches))
    = Some [entry_run]
  ∧ err (ui (run First (mkSystem initialState []) successiveSearches)) = None
  ∧ oneAtATime First (mkSystem initialState []) overlappingSearches = false.
Proof.
  assert (Hex : exclusive initialState) by (by left).
  split; [reflexivity|]. split; [exact Hex|]. split; [reflexivity|].
  destruct (search_state_invariant First) as (Hinv & _).
  split; [|by repeat split].
  exact (Hinv (mkSystem initialState []) successiveSearches eq_refl Hex eq_refl).
Defined.

(** C8: the failing input.  For the term "AC/DC" the first variant asks
    for the lower-cased term percent-encoded; the second variant hands
    [fetch] the lower-cased term as it is, so that the path parameter of its
    request is not the percent-encoded term (the slash stays a path
    separator). *)
Theorem lookupUrl_Second_not_encoded :
  encodeURIComponent (toLowerCase "AC/DC") = Some "ac%2Fdc"
  ∧ pathParameter <$>
      requests (searchWord First (serve [entry_run]) 0 "AC/DC" initialState).2
    = [Some "ac%2Fdc"]
  ∧ pathParameter <$>
      requests (searchWord Second (serve [entry_run]) 0 "AC/DC" initialState).2
    = [Some "ac/dc"]
  ∧ lookupUrl Second "AC/DC" ≠ lookupUrl First "AC/DC".
Proof.
  split; [reflexivity|]. split; [reflexivity|]. split; [reflexivity|].
  by vm_compute.
Qed.

End ConcreteRuns.

(** * The rest of the component: properties *)

(** ** Audio *)

Section AudioProperties.
Context `{H : Host}.

Lemma find_audible (ps : list Phonetic.t) :
  match
    List.find (λ p, match Phonetic.audio p with
                    | Some a => negb (bool_decide (a = EmptyString))
                    | None => false
                    end) ps
  with
  | Some p =>
      ∃ before after url,
        ps = before ++ p :: after ∧ Phonetic.audio p = Some url
        ∧ url ≠ EmptyString ∧ Forall silent before
  | None => Forall silent ps
  end.
Proof.
  induction ps as [|q ps IH]; cbn [List.find]; [constructor|].
  destruct (Phonetic.audio q) as [a|] eqn:Ha.
  - case_bool_decide as Hempty; cbn [negb].
    + destruct (List.find _ ps) as [p|].
      * destruct IH as (before & after & url & -> & Hp & Hurl & Hsil).
        exists (q :: before), after, url. repeat split; try done.
        constructor; [|done]. right. by rewrite Ha, Hempty.
      * constructor; [|done]. right. by rewrite Ha, Hempty.
    + exists [], ps, a. repeat split; try done; constructor.
  - destruct (List.find _ ps) as [p|].
    + destruct IH as (before & after & url & -> & Hp & Hurl & Hsil).
      exists (q :: before), after, url. repeat split; try done.
      constructor; [by left|done].
    + constructor; [by left|done].
Qed.

(** X1: [playAudio] plays the first audio of the first entry that is a
    non-empty string, passing over the variants without one; it plays
    nothing when all are silent or when there is no first entry.  Entries
    given as argument stand in for the loaded ones, also when the list given
    is empty. *)
Theorem playAudio_first_audible entryData st :
  (∀ e es,
     entryData = Some (e :: es)
     ∨ (entryData = None ∧ data st = Some (e :: es)) →
     match playAudio entryData st with
     | Some url =>
         url ≠ EmptyString
         ∧ ∃ before p after,
             DictionaryEntry.phonetics e = before ++ p :: after
             ∧ Phonetic.audio p = Some url ∧ Forall silent before
     | None => Forall silent (DictionaryEntry.phonetics e)
     end)
  ∧ (entryData = Some [] → playAudio entryData st = None)
  ∧ (entryData = None → data st = None ∨ data st = Some [] →
     playAudio entryData st = None).
Proof.
  split; [|split].
  - intros e es Hsrc.
    assert (Hplay : playAudio entryData st =
      match List.find (λ p, match Phonetic.audio p with
                            | Some a => negb (bool_decide (a = EmptyString))
                            | None => false
                            end) (DictionaryEntry.phonetics e) with
      | Some p => Phonetic.audio p
      | None => None
      end).
    { unfold playAudio. by destruct Hsrc as [->|[-> ->]]. }
    rewrite Hplay.
    pose proof (find_audible (DictionaryEntry.phonetics e)) as Hfind.
    destruct (List.find _ _) as [p|]; [|done].
    destruct Hfind as (before & after & url & Hps & Hp & Hurl & Hsil).
    rewrite Hp. split; [done|]. by exists before, p, after.
  - by intros ->.
  - unfold playAudio. by intros -> [->| ->].
Qed.

(** X2: the effects of a search past the guard.  When the request
    cannot be built there is no request and one error log; otherwise there
    is exactly one request, followed by one error log when the lookup fails
    and, when it succeeds, by the timer that plays the result 300 ms later
    if [autoPlayAudio] was on when the search was called, and by nothing if
    it was off.  What that timer plays depends on the result alone, not on
    what is loaded when it fires. *)
Theorem searchWord_effects v net now word st :
  trim word ≠ EmptyString →
  match lookupUrl v word with
  | None => (searchWord v net now word st).2 = [ConsoleError]
  | Some url =>
      match net url with
      | Fulfilled (mkResponse true (Some result)) =>
          (searchWord v net now word st).2 =
          Fetch url ::
            (if autoPlayAudio st then [SetTimeout_playAudio result 300]
             else [])
          ∧ ∀ st1 st2,
              playAudio (Some result) st1 = playAudio (Some result) st2
      | _ => (searchWord v net now word st).2 = [Fetch url; ConsoleError]
      end
  end.
Proof.
  intros Hw. unfold searchWord, searchWord_call.
  rewrite bool_decide_eq_false_2 by done.
  destruct (lookupUrl v word) as [url|]; [|done].
  unfold searchWord_settle.
  destruct (net url) as [|[[] [result|]]]; done.
Qed.

End AudioProperties.

(** ** The copy marker *)

Section CopyProperties.

Lemma copySteps_fire (texts : list string) c :
  texts ≠ [] →
  foldl copyStep c (Copy <$> texts) =
  (setCopiedText (last texts) c.1, length texts + c.2).
Proof.
  revert c. induction texts as [|a texts IH]; intros [st n] Hne; [done|].
  cbn [fmap list_fmap foldl copyStep copyToClipboard fst snd].
  destruct texts as [|b texts]; [done|].
  rewrite IH by done. cbn [fst snd].
  change (last (a :: b :: texts)) with (last (b :: texts)).
  destruct st. cbn. f_equal. lia.
Qed.

Lemma timers_fire n st :
  0 < n →
  foldl copyStep (st, n) (replicate n TimerFires) = (clearCopied st, 0).
Proof.
  revert st. induction n as [|n IH]; intros st Hn; [lia|].
  cbn [replicate foldl copyStep fst snd].
  destruct n as [|n]; [done|]. rewrite IH by lia. by destruct st.
Qed.

(** X3: a copy shows its text in the marker, writes it to the clipboard
    and sets one timer of 2000 ms; no timer is cancelled, so the timer of an
    earlier copy clears the marker of a later one while that one's own timer
    is still to come; and once every timer has fired after a run of copies
    the marker is clear. *)
Theorem copy_marker :
  (∀ text st,
     copiedText (copyToClipboard text st).1 = Some text
     ∧ (copyToClipboard text st).2 =
         [ClipboardWrite text; SetTimeout_clearCopied 2000])
  ∧ (∀ a b st n,
       let c := foldl copyStep (st, n) [Copy a; Copy b; TimerFires] in
       copiedText c.1 = None ∧ c.2 = S n)
  ∧ (∀ texts st,
       texts ≠ [] →
       let c :=
         foldl copyStep (st, 0)
           ((Copy <$> texts) ++ replicate (length texts) TimerFires) in
       copiedText c.1 = None ∧ c.2 = 0
       ∧ copiedText (foldl copyStep (st, 0) (Copy <$> texts)).1 = last texts).
Proof.
  split; [done|]. split; [done|].
  intros texts st Hne c. subst c.
  rewrite foldl_app, copySteps_fire by done. cbn [fst snd]. rewrite Nat.add_0_r.
  rewrite timers_fire by (destruct texts; [done|cbn; lia]).
  done.
Qed.

End CopyProperties.

(** ** Writing the store and reading it back *)

Section PersistProperties.
Context `{H : Host} `{W : HostWriter}.

Lemma truthy_Some s : s ≠ EmptyString → truthy (Some s) = Some s.
Proof. intros Hs. unfold truthy. by rewrite bool_decide_eq_false_2. Qed.

Lemma loadHistory_prefs key (localStorage : gmap string string) st st' :
  loadHistory key localStorage st = Ok st' →
  isDarkMode st' = isDarkMode st ∧ autoPlayAudio st' = autoPlayAudio st
  ∧ favorites st' = favorites st.
Proof. unfold loadHistory. intros Hl. repeat case_match; by simplify_eq. Qed.

Lemma loadFavorites_prefs key (localStorage : gmap string string) st st' :
  loadFavorites key localStorage st = Ok st' →
  isDarkMode st' = isDarkMode st ∧ autoPlayAudio st' = autoPlayAudio st
  ∧ history st' = history st.
Proof. unfold loadFavorites. intros Hl. repeat case_match; by simplify_eq. Qed.

Lemma booleanToString_truthy b :
  truthy (Some (booleanToString b)) = Some (booleanToString b).
Proof. by destruct b. Qed.

Lemma booleanToString_true b :
  bool_decide (booleanToString b = "true") = b.
Proof. by destruct b. Qed.

(** X4: what the writing effects store, start-up reads back.  When the
    host's [JSON.parse] undoes its [JSON.stringify] on the two collections
    of a state, start-up on the store written for that state ends well with
    the same History and Favorites, records and order, whatever else the
    store held and whatever the fresh state holds; this in both variants,
    each under its own keys. *)
Theorem reload_collections v prefersDark st (store : gmap string string) st0 :
  JSON_stringify_history (history st) ≠ EmptyString →
  JSON_stringify_favorites (favorites st) ≠ EmptyString →
  JSON_parse_history (JSON_stringify_history (history st))
    = Some (history st) →
  JSON_parse_favorites (JSON_stringify_favorites (favorites st))
    = Some (favorites st) →
  ∃ st', bootstrap v prefersDark (persist v st store) st0 = Ok st'
         ∧ history st' = history st ∧ favorites st' = favorites st.
Proof.
  intros Hh Hf Hph Hpf.
  destruct v; unfold bootstrap, persist, loadHistory, loadFavorites.
  - rewrite (lookup_insert_ne _ "favorites" "history") by done.
    rewrite lookup_insert_eq, truthy_Some, Hph by done. cbn [bindResult].
    rewrite lookup_insert_eq, truthy_Some, Hpf by done.
    by eexists.
  - do 3 rewrite (lookup_insert_ne _ _ "wordHistory") by done.
    rewrite lookup_insert_eq, truthy_Some, Hph by done. cbn [bindResult].
    do 2 rewrite (lookup_insert_ne _ _ "wordFavorites") by done.
    rewrite lookup_insert_eq, truthy_Some, Hpf by done. cbn [bindResult].
    rewrite (lookup_insert_ne _ _ "darkMode") by done.
    rewrite !lookup_insert_eq, !booleanToString_truthy.
    by eexists.
Qed.

(** X5: the preferences across a restart.  The second variant stores
    and restores both the dark mode and the audio preference.  The first
    variant stores the dark mode only: after a restart the dark mode is the
    stored one or the system's preference for dark, so that a system that
    prefers dark always starts dark, and the audio preference is the one of
    the fresh component, never the one last chosen. *)
Theorem reload_preferences v prefersDark st (store : gmap string string)
    st0 st' :
  bootstrap v prefersDark (persist v st store) st0 = Ok st' →
  match v with
  | First =>
      isDarkMode st' = isDarkMode st || prefersDark
      ∧ autoPlayAudio st' = autoPlayAudio st0
      ∧ (prefersDark = true → isDarkMode st' = true)
  | Second =>
      isDarkMode st' = isDarkMode st ∧ autoPlayAudio st' = autoPlayAudio st
  end.
Proof.
  destruct v; unfold bootstrap, persist.
  - do 2 rewrite (lookup_insert_ne _ _ "isDarkMode") by done.
    rewrite lookup_insert_eq.
    assert (bool_decide (Some (booleanToString (isDarkMode st)) = Some "true")
            = isDarkMode st) as ->.
    { by destruct (isDarkMode st). }
    destruct (loadHistory _ _ _) as [st1|] eqn:H1; [|done]. cbn [bindResult].
    intros H2.
    apply loadHistory_prefs in H1 as (Hd1 & Ha1 & _).
    apply loadFavorites_prefs in H2 as (Hd2 & Ha2 & _).
    rewrite Hd2, Hd1, Ha2, Ha1. cbn [isDarkMode autoPlayAudio setIsDarkMode].
    split; [done|]. split; [done|]. intros ->. apply orb_true_r.
  - destruct (loadHistory _ _ _) as [st1|] eqn:H1; [|done]. cbn [bindResult].
    destruct (loadFavorites _ _ _) as [st2|] eqn:H2; [|done]. cbn [bindResult].
    rewrite (lookup_insert_ne _ _ "darkMode") by done.
    rewrite !lookup_insert_eq, !booleanToString_truthy.
    rewrite !booleanToString_true. by intros [= <-].
Qed.

End PersistProperties.

(** ** Invariants of the transition system *)

Section RunProperties.
Context `{H : Host}.

(** What the first half of a search leaves alone. *)
Lemma searchWord_call_frame v word st :
  match searchWord_call v word st with
  | Returned st' _ | Awaiting _ _ st' =>
      history st' = history st ∧ favorites st' = favorites st
      ∧ selectedMeaningIndex st' = selectedMeaningIndex st
      ∧ (data st' = data st ∨ data st' = None)
  end.
Proof.
  unfold searchWord_call. case_bool_decide; [by auto|].
  destruct (lookupUrl v word); cbn; auto.
Qed.

Lemma toggleFavorite_index now st st' :
  toggleFavorite now st = Ok st' →
  selectedMeaningIndex st' = selectedMeaningIndex st.
Proof. unfold toggleFavorite. intros Ht. repeat case_match; by simplify_eq. Qed.

Lemma toggleFavorite_NoDup now st st' :
  toggleFavorite now st = Ok st' →
  NoDup (FavoriteItem.word <$> favorites st) →
  NoDup (FavoriteItem.word <$> favorites st').
Proof.
  unfold toggleFavorite. intros Ht Hnd.
  destruct (data st) as [[|e es]|] eqn:Hd; [by simplify_eq| |by simplify_eq].
  destruct (isFavorite st) eqn:Hfav.
  - injection Ht as <-. cbn [favorites removeFromFavorites setFavorites].
    eapply sublist_NoDup; [exact Hnd|]. apply fmap_sublist, sublist_filter.
  - destruct (DictionaryEntry.meanings e) as [|m ms]; [done|].
    destruct (Meaning.definitions m) as [|d ds]; [done|].
    injection Ht as <-. cbn [favorites setFavorites].
    rewrite fmap_cons. apply NoDup_cons. split; [|done].
    cbn [FavoriteItem.word]. intros (f & Hw & Hf)%list_elem_of_fmap.
    apply not_true_iff_false in Hfav. apply Hfav.
    apply (isFavorite_iff _ e es); eauto.
Qed.

Lemma step_collectionsTidy v sys ev :
  collectionsTidy (ui sys) → collectionsTidy (ui (step v sys ev)).
Proof.
  intros (Hfav & Hhist & Hlen). unfold collectionsTidy.
  destruct ev as [word|i r now|now|word| |i]; cbn [step].
  - pose proof (searchWord_call_frame v word (ui sys)) as Hframe.
    destruct (searchWord_call v word (ui sys));
      destruct Hframe as (Hh & Hf & _); cbn [ui]; by rewrite Hh, Hf.
  - destruct (inflight sys !! i) as [p|]; [|done]. cbn [ui].
    unfold searchWord_settle.
    destruct r as [|[[] [result|]]];
      cbn [fst onFinally onCatch setLoading setHistory setSelectedMeaningIndex
           setData setErr favorites history]; try done.
    split; [done|]. split; [by apply historyUpdater_NoDup|].
    apply length_historyUpdater.
  - destruct (toggleFavorite now (ui sys)) as [st|] eqn:Ht; [|done]. cbn [ui].
    pose proof (toggleFavorite_frame _ _ _ Ht) as (_ & _ & _ & Hh).
    rewrite Hh. split; [by eapply toggleFavorite_NoDup|done].
  - cbn. split; [|done].
    eapply sublist_NoDup; [exact Hfav|]. apply fmap_sublist, sublist_filter.
  - cbn. split; [done|]. split; [constructor|lia].
  - done.
Qed.

(** X6: the collections stay tidy along every run of events, searches
    that overlap and clearing included: from a state in which Favorites and
    History each hold no two records of one word and History holds at most
    50, every state reached is such a state. *)
Theorem collections_stay_tidy v sys evs :
  collectionsTidy (ui sys) → collectionsTidy (ui (run v sys evs)).
Proof.
  unfold run. revert sys.
  induction evs as [|ev evs IH]; intros sys Htidy; [done|].
  cbn [foldl]. by apply IH, step_collectionsTidy.
Qed.

Lemma step_indexInBounds v sys ev :
  indexInBounds (ui sys) → offered sys ev = true →
  indexInBounds (ui (step v sys ev)).
Proof.
  intros Hin Hoff. unfold indexInBounds in *.
  destruct ev as [word|i r now|now|word| |i]; cbn [step].
  - pose proof (searchWord_call_frame v word (ui sys)) as Hframe.
    destruct (searchWord_call v word (ui sys));
      destruct Hframe as (_ & _ & Hi & [Hd|Hd]); cbn [ui];
      rewrite Hi, Hd; done.
  - destruct (inflight sys !! i) as [p|]; [|done]. cbn [ui].
    unfold searchWord_settle.
    destruct r as [|[[] [result|]]]; cbn; try done. by left.
  - destruct (toggleFavorite now (ui sys)) as [st|] eqn:Ht; [|done]. cbn [ui].
    pose proof (toggleFavorite_frame _ _ _ Ht) as (Hd & _).
    rewrite Hd, (toggleFavorite_index _ _ _ Ht). done.
  - done.
  - done.
  - cbn [offered] in Hoff. cbn. intros e es Hd. rewrite Hd in Hoff.
    apply andb_true_iff in Hoff as [_ Hi%bool_decide_eq_true]. by right.
Qed.

(** X7: the selected meaning stays within the meanings of the loaded
    entry.  Along every run of events in which meanings are selected through
    the tabs the view shows, the result panel can read the selected
    meaning of every loaded entry that has a meaning; it throws exactly when
    the first entry loaded has no meaning at all. *)
Theorem selected_meaning_in_bounds v sys evs :
  indexInBounds (ui sys) → allOffered v sys evs = true →
  let st := ui (run v sys evs) in
  indexInBounds st
  ∧ (selectedPartOfSpeech st = Throw TypeError
     ↔ ∃ e es, data st = Some (e :: es) ∧ DictionaryEntry.meanings e = []).
Proof.
  intros Hin Hoff st.
  assert (Hst : indexInBounds st).
  { subst st. unfold run. revert sys Hin Hoff.
    induction evs as [|ev evs IH]; intros sys Hin Hoff; [done|].
    cbn [allOffered] in Hoff. apply andb_true_iff in Hoff as [Hev Hoff].
    cbn [foldl]. apply IH; [|done]. by apply step_indexInBounds. }
  split; [done|]. unfold selectedPartOfSpeech.
  destruct (data st) as [[|e es]|] eqn:Hd.
  - split; [done|]. by intros (? & ? & ? & _).
  - destruct (Hst e es Hd) as [Hz|Hlt].
    + rewrite Hz. destruct (DictionaryEntry.meanings e) as [|m ms] eqn:Hm.
      * split; [|done]. intros _. by exists e, es.
      * split; [done|]. intros (? & ? & [= <- <-] & Hnil). congruence.
    + apply lookup_lt_is_Some_2 in Hlt as [m Hm]. rewrite Hm.
      split; [done|]. intros (? & ? & [= <- <-] & Hnil).
      by rewrite Hnil in Hm.
  - split; [done|]. by intros (? & ? & ? & _).
Qed.

Lemma step_loadingTracks v sys ev :
  loadingTracks sys →
  (∀ word, ev = CallSearch word → inflight sys = []) →
  loadingTracks (step v sys ev).
Proof.
  intros Htr Hidle. unfold loadingTracks in *.
  destruct ev as [word|i r now|now|word| |i]; cbn [step].
  - rewrite (Hidle word eq_refl) in *.
    destruct Htr as [[_ Hl]|[[p Hp] _]]; [|done].
    unfold searchWord_call. case_bool_decide; [by left|].
    destruct (lookupUrl v word); cbn; [right|left]; eauto.
  - destruct (inflight sys !! i) as [p|] eqn:Hp; [|done].
    destruct Htr as [[Hnil _]|[[p' Hone] _]]; [by rewrite Hnil in Hp|].
    rewrite Hone in Hp |- *. destruct i as [|i]; [|done].
    left. split; [done|]. apply searchWord_settle_loading.
  - destruct (toggleFavorite now (ui sys)) as [st|] eqn:Ht; [|done].
    apply toggleFavorite_frame in Ht as (_ & _ & Hl & _).
    cbn [ui inflight]. by rewrite Hl.
  - done.
  - done.
  - done.
Qed.

(** X8: as long as no search is called while a lookup is in flight,
    [loading] is true exactly while a lookup is in flight, whatever other
    events come in between. *)
Theorem loading_iff_in_flight v sys evs :
  inflight sys = [] → loading (ui sys) = false →
  oneAtATime v sys evs = true →
  (loading (ui (run v sys evs)) = true ↔ inflight (run v sys evs) ≠ []).
Proof.
  intros Hnil Hl Hserial.
  assert (Htr : loadingTracks (run v sys evs)).
  { assert (Hinit : loadingTracks sys) by (by left).
    clear Hnil Hl. unfold run. revert sys Hserial Hinit.
    induction evs as [|ev evs IH]; intros sys Hserial Hinit; [done|].
    cbn [oneAtATime] in Hserial.
    apply andb_true_iff in Hserial as [Hev Hserial].
    cbn [foldl]. apply IH; [done|]. apply step_loadingTracks; [done|].
    intros word ->. by apply bool_decide_eq_true in Hev. }
  destruct Htr as [[Hn Hf]|[[p Hp] Ht]].
  - rewrite Hn, Hf. split; done.
  - rewrite Hp, Ht. split; done.
Qed.

(** X9: lookups are applied in the order in which they settle.  When a
    second search is called while the first is in flight and the first
    settles last, both with a success, the entries shown and the front of
    History are those of the first search, not of the one called last. *)
Theorem last_settled_wins v word1 word2 url1 url2 result1 result2 now1 now2 st :
  trim word1 ≠ EmptyString → trim word2 ≠ EmptyString →
  lookupUrl v word1 = Some url1 → lookupUrl v word2 = Some url2 →
  let sys :=
    run v (mkSystem st [])
      [CallSearch word1; CallSearch word2;
       Settle 1 (Fulfilled (mkResponse true (Some result2))) now2;
       Settle 0 (Fulfilled (mkResponse true (Some result1))) now1] in
  data (ui sys) = Some result1
  ∧ head (history (ui sys)) = Some (HistoryItem.mk (toLowerCase word1) now1)
  ∧ inflight sys = []
  ∧ loading (ui sys) = false.
Proof.
  intros Hw1 Hw2 Hu1 Hu2 sys. subst sys. unfold run.
  cbn [foldl step]. unfold searchWord_call.
  rewrite (bool_decide_eq_false_2 _ Hw1), Hu1. cbn [ui inflight app].
  rewrite (bool_decide_eq_false_2 _ Hw2), Hu2. cbn [ui inflight app].
  done.
Qed.

End RunProperties.

(** ** Clicks, frames and the synonym chips *)

Section ClickProperties.
Context `{H : Host}.

Lemma length_filter_other_words (h : list HistoryItem.t) a :
  NoDup (HistoryItem.word <$> h) → a ∈ h →
  S (length (filter (λ b, HistoryItem.word b ≠ HistoryItem.word a) h))
  = length h.
Proof.
  induction h as [|b h IH]; intros Hnd Ha; [by apply elem_of_nil in Ha|].
  rewrite fmap_cons in Hnd. apply NoDup_cons in Hnd as [Hb Hnd].
  apply elem_of_cons in Ha as [->|Ha].
  - rewrite filter_cons_False by (intros Hne; by apply Hne).
    cbn [length]. f_equal. f_equal. apply filter_all.
    intros c Hc Heq. apply Hb. rewrite <- Heq. by apply list_elem_of_fmap_2.
  - rewrite filter_cons_True.
    + cbn [length]. f_equal. by apply IH.
    + intros Heq. apply Hb. rewrite Heq. by apply list_elem_of_fmap_2.
Qed.

(** X10: a click on a record of History whose word is in lower case
    (as the records the component writes are) and whose lookup succeeds
    moves that word to the front with the new time stamp and keeps the other
    records in their order: the list does not grow, and keeps its length
    when it held no two records of one word.  The input box shows the
    word. *)
Theorem clickHistoryItem_moves_to_front v net now item st result :
  item ∈ history st → length (history st) ≤ 50 →
  toLowerCase (HistoryItem.word item) = HistoryItem.word item →
  trim (HistoryItem.word item) ≠ EmptyString →
  lookupSucceeds v net (HistoryItem.word item) result →
  let st' := (clickHistoryItem v net now item st).1 in
  history st' =
    HistoryItem.mk (HistoryItem.word item) now
      :: filter (λ a, HistoryItem.word a ≠ HistoryItem.word item) (history st)
  ∧ length (history st') ≤ length (history st)
  ∧ (NoDup (HistoryItem.word <$> history st) →
     length (history st') = length (history st))
  ∧ value st' = HistoryItem.word item
  ∧ data st' = Some result.
Proof.
  intros Hin Hlen Hlow Hw Hs st'.
  assert (Hst : history st' = historyUpdater (HistoryItem.word item) now
                                (history st)
                ∧ value st' = HistoryItem.word item ∧ data st' = Some result).
  { subst st'. unfold clickHistoryItem.
    pose proof (searchWord_success v net now (HistoryItem.word item)
      (setValue (HistoryItem.word item) st) result Hw Hs) as Hpost.
    destruct (searchWord v net now _ _) as [st1 fx]. cbn [fst] in *.
    subst st1. by destruct v. }
  destruct Hst as (Hh & Hv & Hd).
  assert (Hlt : length (filter (λ a, HistoryItem.word a ≠ HistoryItem.word item)
                          (history st)) < length (history st)).
  { apply (length_filter_lt _ _ item); [done|]. intros Hne. by apply Hne. }
  rewrite Hh, historyUpdater_cons, Hlow, take_ge by lia.
  split; [done|]. cbn [length]. split; [lia|]. split; [|done].
  intros Hnd. by apply length_filter_other_words.
Qed.

Lemma searchWord_frame v net now word st :
  let st' := (searchWord v net now word st).1 in
  favorites st' = favorites st ∧ value st' = value st
  ∧ isDarkMode st' = isDarkMode st ∧ autoPlayAudio st' = autoPlayAudio st
  ∧ copiedText st' = copiedText st
  ∧ showSuggestions st' = showSuggestions st
  ∧ (trim word ≠ EmptyString → mobileTab st' = TabMain).
Proof.
  unfold searchWord, searchWord_call. case_bool_decide as Hw.
  - cbn [fst]. repeat split; done.
  - destruct (lookupUrl v word) as [url|]; [|by repeat split].
    unfold searchWord_settle.
    destruct (net url) as [|[[] [result|]]]; by repeat split.
Qed.

(** X11: the handlers keep to their own cells.  A search, whatever its
    outcome, leaves Favorites, the input box, the two preferences, the copy
    marker and the suggestions flag as they were, and past the guard it
    shows the main panel; a toggle of the star that ends well leaves the
    entries, the error, the loading flag, History and the selected meaning
    as they were. *)
Theorem handlers_keep_to_their_cells v net now word st :
  (let st' := (searchWord v net now word st).1 in
   favorites st' = favorites st ∧ value st' = value st
   ∧ isDarkMode st' = isDarkMode st ∧ autoPlayAudio st' = autoPlayAudio st
   ∧ copiedText st' = copiedText st
   ∧ showSuggestions st' = showSuggestions st
   ∧ (trim word ≠ EmptyString → mobileTab st' = TabMain))
  ∧ (∀ st', toggleFavorite now st = Ok st' →
       data st' = data st ∧ err st' = err st ∧ loading st' = loading st
       ∧ history st' = history st
       ∧ selectedMeaningIndex st' = selectedMeaningIndex st).
Proof.
  split; [apply searchWord_frame|].
  intros st' Ht.
  pose proof (toggleFavorite_frame _ _ _ Ht) as (Hd & He & Hl & Hh).
  by rewrite (toggleFavorite_index _ _ _ Ht).
Qed.

(** X12: the synonym chips.  The view shows the first fifteen of
    [getAllSynonyms]: at most fifteen strings, no string twice (each chip
    has its own key), in the order of [getAllSynonyms], and none exactly
    when there is no synonym. *)
Theorem shownSynonyms_distinct st :
  NoDup (shownSynonyms st)
  ∧ length (shownSynonyms st) ≤ 15
  ∧ shownSynonyms st `prefix_of` getAllSynonyms st
  ∧ (shownSynonyms st = [] ↔ getAllSynonyms st = []).
Proof.
  unfold shownSynonyms. split; [|split; [|split]].
  - eapply sublist_NoDup; [|apply sublist_take].
    destruct (data st) as [[|e es]|] eqn:Hd.
    + unfold getAllSynonyms. rewrite Hd. constructor.
    + rewrite (getAllSynonyms_loaded _ e es) by done. apply firstSeen_NoDup.
    + unfold getAllSynonyms. rewrite Hd. constructor.
  - rewrite length_take. lia.
  - apply prefix_take.
  - by destruct (getAllSynonyms st).
Qed.

End ClickProperties.

(** ** The star and the main column after a search *)

Section ViewProperties.
Context `{H : Host}.

(** X13: a click on a favorite.  When the lookup of its word succeeds,
    Favorites is what it was, History gets the lower-cased word in front,
    and the star is lit exactly when some favorite has the word of the first
    entry that came back: it is lit when the service answers with the very
    word of the favorite, whatever its spelling in lower case. *)
Theorem clickFavoriteItem_star v net now item st e es :
  item ∈ favorites st →
  trim (FavoriteItem.word item) ≠ EmptyString →
  lookupSucceeds v net (FavoriteItem.word item) (e :: es) →
  let st' := (clickFavoriteItem v net now item st).1 in
  favorites st' = favorites st
  ∧ head (history st')
    = Some (HistoryItem.mk (toLowerCase (FavoriteItem.word item)) now)
  ∧ (isFavorite st' = true
     ↔ ∃ f, f ∈ favorites st
            ∧ FavoriteItem.word f = DictionaryEntry.word e)
  ∧ (DictionaryEntry.word e = FavoriteItem.word item → isFavorite st' = true).
Proof.
  intros Hin Hw Hs st'.
  assert (Hst : favorites st' = favorites st ∧ data st' = Some (e :: es)
                ∧ head (history st')
                  = Some (HistoryItem.mk
                            (toLowerCase (FavoriteItem.word item)) now)).
  { subst st'. unfold clickFavoriteItem.
    pose proof (searchWord_success v net now (FavoriteItem.word item)
      (setValue (FavoriteItem.word item) st) (e :: es) Hw Hs) as Hpost.
    destruct (searchWord v net now _ _) as [st1 fx]. cbn [fst] in *.
    subst st1. by destruct v. }
  destruct Hst as (Hf & Hd & Hh).
  assert (Hiff : isFavorite st' = true
                 ↔ ∃ f, f ∈ favorites st
                        ∧ FavoriteItem.word f = DictionaryEntry.word e).
  { rewrite <- Hf. by apply (isFavorite_iff _ e es). }
  split; [done|]. split; [done|]. split; [done|].
  intros Heq. apply Hiff. by exists item.
Qed.

Lemma notFoundMessage_truthy word :
  truthy (Some (notFoundMessage word)) = Some (notFoundMessage word).
Proof. done. Qed.


End ViewProperties.

(** ** The suggestions dropdown and the keys of the store *)

Section BoxProperties.
Context `{H : Host} `{W : HostWriter}.

(** X15: the suggestions dropdown of the second variant.  Typing a
    text that is not empty opens it, and submitting the form does not close
    it: it is still rendered when the search has ended, whatever the outcome.
    A click on a suggestion closes it, and so does emptying the box. *)
Theorem suggestions_dropdown net now st :
  (∀ text, text ≠ EmptyString →
     dropdownVisible (onChange text st) = true
     ∧ dropdownVisible (handle Second net now (onChange text st)).1 = true)
  ∧ (∀ word, dropdownVisible (clickSuggestion net now word st).1 = false)
  ∧ dropdownVisible (onChange EmptyString st) = false.
Proof.
  split; [|split].
  - intros text Htext.
    assert (Hopen : dropdownVisible (onChange text st) = true).
    { unfold dropdownVisible, onChange. cbn.
      by rewrite bool_decide_eq_true_2. }
    split; [done|]. unfold handle, dropdownVisible in *.
    set (st1 := onChange text st) in *.
    destruct (searchWord_frame Second net now (value st1) st1)
      as (_ & Hv & _ & _ & _ & Hs & _).
    by rewrite Hs, Hv.
  - intros word. unfold clickSuggestion, dropdownVisible.
    destruct (searchWord_frame Second net now word
                (setShowSuggestions false (setValue word st)))
      as (_ & _ & _ & _ & _ & Hs & _).
    by rewrite Hs.
  - unfold dropdownVisible, onChange. cbn. by rewrite andb_false_r.
Qed.

(** X16: the two variants do not share a key of the store.  Start-up
    of one variant on the store that the other variant wrote, and nothing
    else, loads neither History nor Favorites: it ends well with the
    collections of the fresh component. *)
Theorem variants_do_not_share_keys v prefersDark st st0 :
  let other := match v with First => Second | Second => First end in
  ∃ st', bootstrap v prefersDark (persist other st ∅) st0 = Ok st'
         ∧ history st' = history st0 ∧ favorites st' = favorites st0.
Proof.
  destruct v; cbn zeta; unfold bootstrap, persist, loadHistory, loadFavorites.
  - rewrite !(lookup_insert_ne _ _ "history"), lookup_empty by done.
    cbn [truthy bindResult].
    rewrite !(lookup_insert_ne _ _ "favorites"), lookup_empty by done.
    by eexists.
  - rewrite !(lookup_insert_ne _ _ "wordHistory"), lookup_empty by done.
    cbn [truthy bindResult].
    rewrite !(lookup_insert_ne _ _ "wordFavorites"), lookup_empty by done.
    cbn [truthy bindResult].
    rewrite !(lookup_insert_ne _ _ "darkMode"), lookup_empty by done.
    rewrite !(lookup_insert_ne _ _ "autoPlayAudio"), lookup_empty by done.
    by eexists.
Qed.

End BoxProperties.

(** * The rest of the component on concrete runs *)

Section MoreConcreteRuns.
#[local] Existing Instance asciiHost.
#[local] Existing Instance asciiWriter.

Lemma playAudio_first_audible_witness :
  data twoFavorites = Some [entry_run]
  ∧ playAudio None twoFavorites = Some "https://audio.example/run.mp3"
  ∧ ∃ before p after,
      DictionaryEntry.phonetics entry_run = before ++ p :: after
      ∧ Phonetic.audio p = Some "https://audio.example/run.mp3"
      ∧ Forall silent before.
Proof.
  split; [reflexivity|]. split; [reflexivity|].
  destruct (playAudio_first_audible None twoFavorites) as (Hfirst & _).
  specialize (Hfirst entry_run [] (or_intror (conj eq_refl eq_refl))).
  change (playAudio None twoFavorites)
    with (Some "https://audio.example/run.mp3") in Hfirst.
  exact (proj2 Hfirst).
Defined.

Lemma searchWord_effects_witness :
  trim "Run" ≠ EmptyString
  ∧ (searchWord First (serve [entry_run]) 7 "Run" inUse).2 =
      [Fetch (endpoint +:+ "run"); SetTimeout_playAudio [entry_run] 300]
  ∧ (searchWord First (serve [entry_run]) 7 "Run" twoFavorites).2 =
      [Fetch (endpoint +:+ "run")].
Proof.
  assert (Hw : trim "Run" ≠ EmptyString) by (vm_compute; discriminate).
  split; [exact Hw|].
  pose proof (searchWord_effects First (serve [entry_run]) 7%Z "Run" inUse Hw)
    as Hon.
  pose proof (searchWord_effects First (serve [entry_run]) 7%Z "Run"
                twoFavorites Hw) as Hoff.
  change (lookupUrl First "Run") with (Some (endpoint +:+ "run")) in Hon, Hoff.
  cbn [serve] in Hon, Hoff.
  split; [exact (proj1 Hon)|exact (proj1 Hoff)].
Defined.

Lemma copy_marker_witness :
  ["first"; "second"] ≠ []
  ∧ copiedText
      (foldl copyStep (initialState, 0)
         [Copy "first"; Copy "second"; TimerFires]).1 = None
  ∧ copiedText
      (foldl copyStep (initialState, 0)
         (Copy <$> ["first"; "second"])).1 = Some "second".
Proof.
  assert (Hne : ["first"; "second"] ≠ []) by discriminate.
  split; [exact Hne|].
  destruct copy_marker as (_ & Hearly & Hall).
  split; [exact (proj1 (Hearly "first" "second" initialState 0))|].
  exact (proj2 (proj2 (Hall ["first"; "second"] initialState Hne))).
Defined.

Lemma reload_collections_witness :
  JSON_stringify_history (history inUse) ≠ EmptyString
  ∧ JSON_parse_history (JSON_stringify_history (history inUse))
    = Some (history inUse)
  ∧ JSON_parse_favorites (JSON_stringify_favorites (favorites inUse))
    = Some (favorites inUse)
  ∧ ∃ st', bootstrap Second false (persist Second inUse ∅) initialState
             = Ok st'
           ∧ history st' = history inUse ∧ favorites st' = favorites inUse.
Proof.
  assert (Hh : JSON_stringify_history (history inUse) ≠ EmptyString)
    by (vm_compute; discriminate).
  assert (Hf : JSON_stringify_favorites (favorites inUse) ≠ EmptyString)
    by (vm_compute; discriminate).
  assert (Hph : JSON_parse_history (JSON_stringify_history (history inUse))
                = Some (history inUse)) by (vm_compute; reflexivity).
  assert (Hpf : JSON_parse_favorites
                  (JSON_stringify_favorites (favorites inUse))
                = Some (favorites inUse)) by (vm_compute; reflexivity).
  split; [exact Hh|]. split; [exact Hph|]. split; [exact Hpf|].
  exact (reload_collections Second false inUse ∅ initialState Hh Hf Hph Hpf).
Defined.

Lemma reload_preferences_witness :
  isDarkMode inUse = false ∧ autoPlayAudio inUse = true
  ∧ ∃ st', bootstrap First true (persist First inUse ∅) initialState = Ok st'
           ∧ isDarkMode st' = true ∧ autoPlayAudio st' = false.
Proof.
  split; [reflexivity|]. split; [reflexivity|].
  destruct (bootstrap First true (persist First inUse ∅) initialState)
    as [st'|] eqn:Hb; [|vm_compute in Hb; discriminate].
  exists st'. split; [reflexivity|].
  destruct (reload_preferences First true inUse ∅ initialState st' Hb)
    as (Hd & Ha & _).
  split; [exact Hd|exact Ha].
Defined.

Lemma collections_stay_tidy_witness :
  collectionsTidy initialState
  ∧ collectionsTidy
      (ui (run First (mkSystem initialState []) overlappingSearches)).
Proof.
  assert (Htidy : collectionsTidy initialState).
  { split; [constructor|]. split; [constructor|]. cbn. lia. }
  split; [exact Htidy|].
  exact (collections_stay_tidy First (mkSystem initialState [])
           overlappingSearches Htidy).
Defined.

Lemma selected_meaning_in_bounds_witness :
  indexInBounds initialState
  ∧ allOffered First (mkSystem initialState []) searchThenSelect = true
  ∧ selectedPartOfSpeech
      (ui (run First (mkSystem initialState []) searchThenSelect))
    = Ok (Some "noun")
  ∧ indexInBounds (ui (run First (mkSystem initialState []) searchThenSelect)).
Proof.
  assert (Hin : indexInBounds initialState) by (intros e es Hd; discriminate).
  split; [exact Hin|]. split; [reflexivity|]. split; [reflexivity|].
  exact (proj1 (selected_meaning_in_bounds First (mkSystem initialState [])
                  searchThenSelect Hin eq_refl)).
Defined.

(** An entry without meanings comes back: the panel cannot be rendered. *)
Example selectedPartOfSpeech_bare :
  selectedPartOfSpeech
    (searchWord Second (serve [entry_bare]) 5 "qi" initialState).1
  = Throw TypeError.
Proof. reflexivity. Qed.

Lemma loading_iff_in_flight_witness :
  inflight (mkSystem initialState []) = []
  ∧ loading initialState = false
  ∧ oneAtATime First (mkSystem initialState [])
      [CallSearch "zzzz"; ClickStar 1; SelectMeaning 0] = true
  ∧ (loading (ui (run First (mkSystem initialState [])
                    [CallSearch "zzzz"; ClickStar 1; SelectMeaning 0])) = true
     ↔ inflight (run First (mkSystem initialState [])
                   [CallSearch "zzzz"; ClickStar 1; SelectMeaning 0]) ≠ [])
  ∧ loading (ui (run First (mkSystem initialState [])
                   [CallSearch "zzzz"; ClickStar 1; SelectMeaning 0])) = true.
Proof.
  split; [reflexivity|]. split; [reflexivity|]. split; [reflexivity|].
  split; [|reflexivity].
  exact (loading_iff_in_flight First (mkSystem initialState [])
           [CallSearch "zzzz"; ClickStar 1%Z; SelectMeaning 0]
           eq_refl eq_refl eq_refl).
Defined.

Lemma last_settled_wins_witness :
  trim "walk" ≠ EmptyString ∧ trim "run" ≠ EmptyString
  ∧ data (ui (run Second (mkSystem initialState [])
       [CallSearch "walk"; CallSearch "run";
        Settle 1 (Fulfilled (mkResponse true (Some [entry_run]))) 5%Z;
        Settle 0 (Fulfilled (mkResponse true (Some [entry_bare]))) 6%Z]))
    = Some [entry_bare]
  ∧ head (history (ui (run Second (mkSystem initialState [])
       [CallSearch "walk"; CallSearch "run";
        Settle 1 (Fulfilled (mkResponse true (Some [entry_run]))) 5%Z;
        Settle 0 (Fulfilled (mkResponse true (Some [entry_bare]))) 6%Z])))
    = Some (HistoryItem.mk "walk" 6).
Proof.
  assert (Hw1 : trim "walk" ≠ EmptyString) by (vm_compute; discriminate).
  assert (Hw2 : trim "run" ≠ EmptyString) by (vm_compute; discriminate).
  split; [exact Hw1|]. split; [exact Hw2|].
  destruct (last_settled_wins Second "walk" "run" _ _ [entry_bare] [entry_run]
              6%Z 5%Z initialState Hw1 Hw2 eq_refl eq_refl) as (Hd & Hh & _).
  split; [exact Hd|exact Hh].
Defined.

Lemma clickHistoryItem_moves_to_front_witness :
  HistoryItem.mk "walk" 2 ∈ history inUse
  ∧ toLowerCase "walk" = "walk"
  ∧ trim "walk" ≠ EmptyString
  ∧ lookupSucceeds First (serve [entry_bare]) "walk" [entry_bare]
  ∧ history (clickHistoryItem First (serve [entry_bare]) 9
               (HistoryItem.mk "walk" 2) inUse).1
    = [HistoryItem.mk "walk" 9; HistoryItem.mk "run" 3]
  ∧ value (clickHistoryItem First (serve [entry_bare]) 9
             (HistoryItem.mk "walk" 2) inUse).1 = "walk".
Proof.
  assert (Hin : HistoryItem.mk "walk" 2 ∈ history inUse) by (right; left).
  assert (Hlen : length (history inUse) ≤ 50) by (cbn; lia).
  assert (Hw : trim "walk" ≠ EmptyString) by (vm_compute; discriminate).
  assert (Hs : lookupSucceeds First (serve [entry_bare]) "walk" [entry_bare])
    by (eexists; split; reflexivity).
  assert (Hlow : toLowerCase (HistoryItem.word (HistoryItem.mk "walk" 2))
                 = HistoryItem.word (HistoryItem.mk "walk" 2))
    by reflexivity.
  split; [exact Hin|]. split; [reflexivity|]. split; [exact Hw|].
  split; [exact Hs|].
  destruct (clickHistoryItem_moves_to_front First (serve [entry_bare]) 9%Z
              (HistoryItem.mk "walk" 2) inUse [entry_bare] Hin Hlen Hlow
              Hw Hs) as (Hh & _ & _ & Hv & _).
  split; [rewrite Hh; reflexivity|exact Hv].
Defined.

Lemma handlers_keep_to_their_cells_witness :
  trim "Run" ≠ EmptyString
  ∧ favorites (searchWord First notFound 7 "Run" inUse).1 = favorites inUse
  ∧ mobileTab (searchWord First notFound 7 "Run"
                 (setMobileTab TabFavorites inUse)).1 = TabMain
  ∧ ∃ st', toggleFavorite 8 inUse = Ok st' ∧ history st' = history inUse.
Proof.
  assert (Hw : trim "Run" ≠ EmptyString) by (vm_compute; discriminate).
  split; [exact Hw|].
  destruct (handlers_keep_to_their_cells First notFound 7%Z "Run" inUse)
    as ((Hf & _) & _).
  split; [exact Hf|].
  destruct (handlers_keep_to_their_cells First notFound 7%Z "Run"
              (setMobileTab TabFavorites inUse))
    as ((_ & _ & _ & _ & _ & _ & Htab) & _).
  split; [exact (Htab Hw)|].
  destruct (handlers_keep_to_their_cells First notFound 8%Z "Run" inUse)
    as (_ & Htoggle).
  destruct (toggleFavorite 8 inUse) as [st'|] eqn:Ht;
    [|vm_compute in Ht; discriminate].
  exists st'. split; [reflexivity|].
  by destruct (Htoggle st' eq_refl) as (_ & _ & _ & Hh & _).
Defined.

Lemma clickFavoriteItem_star_witness :
  FavoriteItem.mk "run" "to move fast" 10 ∈ favorites inUse
  ∧ trim "run" ≠ EmptyString
  ∧ lookupSucceeds Second (serve [entry_run]) "run" [entry_run]
  ∧ isFavorite (clickFavoriteItem Second (serve [entry_run]) 9
                  (FavoriteItem.mk "run" "to move fast" 10) inUse).1 = true
  ∧ favorites (clickFavoriteItem Second (serve [entry_run]) 9
                 (FavoriteItem.mk "run" "to move fast" 10) inUse).1
    = favorites inUse.
Proof.
  assert (Hin : FavoriteItem.mk "run" "to move fast" 10 ∈ favorites inUse)
    by (right; left).
  assert (Hw : trim (FavoriteItem.word (FavoriteItem.mk "run" "to move fast" 10))
               ≠ EmptyString) by (vm_compute; discriminate).
  assert (Hs : lookupSucceeds Second (serve [entry_run])
                 (FavoriteItem.word (FavoriteItem.mk "run" "to move fast" 10))
                 [entry_run]) by (eexists; split; reflexivity).
  split; [exact Hin|]. split; [exact Hw|]. split; [exact Hs|].
  destruct (clickFavoriteItem_star Second (serve [entry_run]) 9%Z
              (FavoriteItem.mk "run" "to move fast" 10) inUse entry_run []
              Hin Hw Hs) as (Hf & _ & _ & Hlit).
  split; [exact (Hlit eq_refl)|exact Hf].
Defined.


Lemma suggestions_dropdown_witness :
  "ser" ≠ EmptyString
  ∧ dropdownVisible
      (handle Second (serve [entry_run]) 3 (onChange "ser" initialState)).1
    = true
  ∧ dropdownVisible
      (clickSuggestion (serve [entry_run]) 3 "serendipity"
         (onChange "ser" initialState)).1 = false.
Proof.
  assert (Hne : "ser" ≠ EmptyString) by discriminate.
  split; [exact Hne|].
  destruct (suggestions_dropdown (serve [entry_run]) 3%Z initialState)
    as (Hopen & _).
  split; [exact (proj2 (Hopen "ser" Hne))|].
  destruct (suggestions_dropdown (serve [entry_run]) 3%Z
              (onChange "ser" initialState)) as (_ & Hclick & _).
  exact (Hclick "serendipity").
Defined.

End MoreConcreteRuns.
